(** * Hamilton TMS: the cross-device status synchronisation core

    A shallow embedding of the client-side synchronisation code of the
    school-transport application:

    - [RealTimeUpdater] (the polling class: [startPolling], [poll],
      [stopPolling], [handleSyncData], [updateRouteData],
      [updateRoutesContent], [updateStudentsContent], [isUserAction],
      [showConnectionStatus]);
    - [cycleRouteStatus], [showLoadingState] and [hideLoadingState] of
      static/js/main.js.

    The browser is single threaded and event driven: every function of
    the source runs to its next suspension point ([await], [setTimeout],
    a promise continuation) without interleaving.  The embedding is
    therefore a state machine [step : World -> Event -> option World]
    whose events are the resumption points of the source: a call from the
    page, a settled fetch, a fired timer, a click.  [None] means that the
    event cannot happen in that state (no such timer, no such request). *)

From Stdlib Require Import ZArith String Ascii List Bool Lia.
From stdpp Require Import base option list strings gmap.

Open Scope Z_scope.

(** ** Strings, class lists *)

Module Js.

(** [s.includes(sub)] *)
Fixpoint includes (sub s : string) : bool :=
  String.prefix sub s ||
  match s with
  | EmptyString => false
  | String _ s' => includes sub s'
  end.

(** ASCII whitespace, the separator of the tokens of a [class]
    attribute: tab, line feed, form feed, carriage return, space. *)
Definition is_ws (c : ascii) : bool :=
  match nat_of_ascii c with
  | 9%nat | 10%nat | 12%nat | 13%nat | 32%nat => true
  | _ => false
  end.

Definition flush (acc : string) (k : list string) : list string :=
  match acc with
  | EmptyString => k
  | _ => acc :: k
  end.

(** Split on ASCII whitespace; [acc] is the token read so far. *)
Fixpoint split_ws (acc s : string) : list string :=
  match s with
  | EmptyString => flush acc []
  | String c s' =>
      if is_ws c then flush acc (split_ws EmptyString s')
      else split_ws (acc +:+ String c EmptyString) s'
  end.

(** Append to an ordered set: only when absent. *)
Definition oset_add (t : string) (ts : list string) : list string :=
  if existsb (String.eqb t) ts then ts else ts ++ [t].

(** The ordered-set parser of a [DOMTokenList]. *)
Definition token_set (cls : string) : list string :=
  fold_left (fun ts t => oset_add t ts) (split_ws EmptyString cls) [].

Fixpoint serialize (ts : list string) : string :=
  match ts with
  | [] => EmptyString
  | [t] => t
  | t :: ts' => t +:+ " " +:+ serialize ts'
  end.

(** [el.classList.add(t)] seen on [el.className]. *)
Definition classList_add (t cls : string) : string :=
  serialize (oset_add t (token_set cls)).

(** [el.classList.remove(t)] seen on [el.className]. *)
Definition classList_remove (t cls : string) : string :=
  serialize (List.filter (fun u => negb (String.eqb t u)) (token_set cls)).

(** Does an element with this [className] match the selector [.t]? *)
Definition has_class (t cls : string) : bool :=
  existsb (String.eqb t) (split_ws EmptyString cls).

End Js.

(** ** The document *)

(** An element that can be a status button.  [currentStatus] and
    [processing] are the [dataset] entries of the source; [None] is a
    missing entry ([undefined]). *)
Record Element := mkElement {
  className : string;
  currentStatus : option string;
  processing : option string;
  innerHTML : string;
  disabled : bool
}.

(** A table row: the [value]s of the [input] elements inside it, in
    document order, and for each cell the elements inside that cell, in
    document order, as references into the heap of elements. *)
Record Row := mkRow {
  row_inputs : list string;
  cells : list (list nat)
}.

(** The first [table tbody] of the page. *)
Record TBody := mkTBody {
  tb_opacity : option string;
  tb_rows : list Row
}.

(** The element [#connection-indicator]. *)
Record Indicator := mkIndicator {
  ind_className : string;
  ind_icon : option string;
  ind_text : string;
  ind_display : option string
}.

(** The live document.  Elements are objects: code keeps references to
    them across suspension points (the button of a pending request, the
    table body of a pending swap), so they live in [heap] and are named
    by their index.  [other_inputs] are the values of the [input]
    elements that precede the table and lie outside any row. *)
Record Document := mkDocument {
  other_inputs : list string;
  tbody : option TBody;
  heap : list Element;
  indicator : option Indicator
}.

(** A row of a fetched page, before it is cloned into the live one. *)
Record TRow := mkTRow {
  t_inputs : list string;
  t_cells : list (list Element)
}.

Definition with_heap (h : list Element) (d : Document) : Document :=
  {| other_inputs := other_inputs d; tbody := tbody d; heap := h;
     indicator := indicator d |}.

Definition with_tbody (t : option TBody) (d : Document) : Document :=
  {| other_inputs := other_inputs d; tbody := t; heap := heap d;
     indicator := indicator d |}.

Definition with_indicator (i : option Indicator) (d : Document) : Document :=
  {| other_inputs := other_inputs d; tbody := tbody d; heap := heap d;
     indicator := i |}.

Definition doc_rows (d : Document) : list Row :=
  match tbody d with
  | Some t => tb_rows t
  | None => []
  end.

Definition mem (s : string) (l : list string) : bool :=
  existsb (String.eqb s) l.

(** [document.querySelector(`input[value="${routeId}"]`)?.closest('tr')]:
    the first input with that value decides; outside a row there is no
    [tr] to find. *)
Definition find_row (d : Document) (routeId : string) : option Row :=
  if mem routeId (other_inputs d) then None
  else find (fun r => mem routeId (row_inputs r)) (doc_rows d).

Definition is_status_button (h : list Element) (id : nat) : bool :=
  match h !! id with
  | Some e => Js.has_class "status-button" (className e)
  | None => false
  end.

(** [row.cells[2]?.querySelector('.status-button')] *)
Definition status_button (h : list Element) (r : Row) : option nat :=
  match cells r !! 2%nat with
  | Some cell => find (is_status_button h) cell
  | None => None
  end.

(** ** Payloads *)

(** One entry of [data.routes]. *)
Record RouteData := mkRouteData {
  status : string;
  status_color : string
}.

(** The body of a [/api/sync/<page>] response.  [success],
    [routes_updated] and [needs_refresh] are read for their truthiness
    only; a missing [timestamp] or [routes] field is [None]; [routes]
    lists the entries in [Object.entries] order. *)
Record SyncData := mkSyncData {
  success : bool;
  timestamp : option Z;
  routes_updated : bool;
  routes : option (list (string * RouteData));
  needs_refresh : bool
}.

Inductive PollOutcome :=
| FetchRejected (err : string)      (* [fetch] rejects or throws *)
| ResponseNotOk                     (* [response.ok] is false *)
| JsonRejected (err : string)       (* [response.json()] rejects *)
| JsonData (data : SyncData).

(** The body of a [/routes/<id>/cycle-status] response. *)
Record CycleReply := mkCycleReply {
  r_success : bool;
  r_status : string;
  r_message : option string
}.

Inductive PostOutcome :=
| PostRejected (err : string)
| PostJsonRejected (err : string)
| PostJson (reply : CycleReply).

Inductive PageKind := RoutesPage | StudentsPage.

Inductive PageOutcome :=
| PageRejected (err : string)       (* [fetch(window.location.href)] rejects *)
| PageNotOk
| PageTextRejected (err : string)   (* [response.text()] rejects *)
| PageHtml (newTableBody : option (list TRow)).

(** ** Patching one status button *)

(** The double quote character, for markup literals. *)
Definition dq : string := String (ascii_of_nat 34) EmptyString.

Definition icon_html (icon label : string) : string :=
  "<i class=" +:+ dq +:+ icon +:+ dq +:+ "></i>" +:+ label.

(** The [innerHTML] written for a status: the [if]/[else if]/[else]
    chain shared by [updateRouteData] and [cycleRouteStatus]. *)
Definition status_html (st : string) : string :=
  if String.eqb st "ready" then icon_html "fas fa-check-circle me-1" "Ready"
  else if String.eqb st "arrived" then icon_html "fas fa-truck me-1" "Arrived"
  else icon_html "fas fa-times-circle me-1" "Not Present".

(** [`status-button btn btn-${routeData.status_color}`] *)
Definition newClass (rd : RouteData) : string :=
  "status-button btn btn-" +:+ status_color rd.

(** The three writes of the loop body of [updateRouteData]. *)
Definition apply_status (rd : RouteData) (e : Element) : Element :=
  {| className := newClass rd;
     currentStatus := Some (status rd);
     processing := processing e;
     innerHTML := status_html (status rd);
     disabled := disabled e |}.

(** One iteration of the loop of [updateRouteData]: the document after
    it and whether it set [hasChanges]. *)
Definition patch_route (d : Document) (entry : string * RouteData)
  : Document * bool :=
  let '(routeId, routeData) := entry in
  match find_row d routeId with
  | Some row =>
      match status_button (heap d) row with
      | Some b =>
          match heap d !! b with
          | Some e =>
              if String.eqb (className e) (newClass routeData) then (d, false)
              else (with_heap (<[b := apply_status routeData e]> (heap d)) d, true)
          | None => (d, false)
          end
      | None => (d, false)
      end
  | None => (d, false)
  end.

(** The whole loop: [hasChanges] accumulates. *)
Fixpoint patch_routes (d : Document) (entries : list (string * RouteData))
  : Document * bool :=
  match entries with
  | [] => (d, false)
  | entry :: rest =>
      let '(d1, c1) := patch_route d entry in
      let '(d2, c2) := patch_routes d1 rest in
      (d2, c1 || c2)
  end.

(** ** The world: the updater object and the browser around it *)

(** What a pending [setTimeout] will run. *)
Inductive Callback :=
| CbPoll                                   (* [() => this.poll()] *)
| CbHideIndicator                          (* [indicator.style.display = 'none'] *)
| CbSwap (k : PageKind) (rows : list TRow) (* the table body swap *)
| CbReenable (button : nat).               (* the re-enable of [cycleRouteStatus] *)

Record Timer := mkTimer {
  timer_id : nat;
  delay : Z;
  callback : Callback
}.

(** The fields of a [RealTimeUpdater].  [lastUpdate] is a JavaScript
    value: a number, or [undefined] ([None]) once an absent
    [data.timestamp] was stored in it.  [pollTimer] is [null] ([None])
    or a timer id. *)
Record Updater := mkUpdater {
  currentPage : string;
  pollInterval : Z;
  lastUpdate : option Z;
  pollTimer : option nat;
  isPolling : bool
}.

(** The globals a page may or may not define. *)
Record Globals := mkGlobals {
  trackUserUpdate_defined : bool;
  showNotification_defined : bool;
  audioSystem_defined : bool
}.

Record World := mkWorld {
  upd : Updater;
  doc : Document;
  globals : Globals;
  timers : list Timer;                  (* pending timeouts *)
  nextTimerId : nat;
  poll_inflight : nat;                  (* sync fetches not yet settled *)
  sent : list (string * option Z);      (* every sync fetch issued: page, cursor *)
  page_inflight : list PageKind;        (* content fetches not yet settled *)
  posts : list (string * nat);          (* cycle-status POSTs not yet settled *)
  console : list string;
  reloads : nat;                        (* calls of [window.location.reload] *)
  lastUserAction : option Z;            (* the [localStorage] key *)
  recentUpdates : gmap string Z;        (* the change guard, see below *)
  notifications : list (string * string);
  audio_triggers : nat
}.

(** Field updates, one per assignment target of the source. *)

Definition set_currentPage (x : string) (u : Updater) : Updater :=
  {| currentPage := x; pollInterval := pollInterval u;
     lastUpdate := lastUpdate u; pollTimer := pollTimer u;
     isPolling := isPolling u |}.

Definition set_pollInterval (x : Z) (u : Updater) : Updater :=
  {| currentPage := currentPage u; pollInterval := x;
     lastUpdate := lastUpdate u; pollTimer := pollTimer u;
     isPolling := isPolling u |}.

Definition set_lastUpdate (x : option Z) (u : Updater) : Updater :=
  {| currentPage := currentPage u; pollInterval := pollInterval u;
     lastUpdate := x; pollTimer := pollTimer u; isPolling := isPolling u |}.

Definition set_pollTimer (x : option nat) (u : Updater) : Updater :=
  {| currentPage := currentPage u; pollInterval := pollInterval u;
     lastUpdate := lastUpdate u; pollTimer := x;
     isPolling := isPolling u |}.

Definition set_isPolling (x : bool) (u : Updater) : Updater :=
  {| currentPage := currentPage u; pollInterval := pollInterval u;
     lastUpdate := lastUpdate u; pollTimer := pollTimer u;
     isPolling := x |}.

Definition set_upd (x : Updater) (w : World) : World :=
  {| upd := x; doc := doc w; globals := globals w; timers := timers w;
     nextTimerId := nextTimerId w; poll_inflight := poll_inflight w;
     sent := sent w; page_inflight := page_inflight w; posts := posts w;
     console := console w; reloads := reloads w;
     lastUserAction := lastUserAction w; recentUpdates := recentUpdates w;
     notifications := notifications w;
     audio_triggers := audio_triggers w |}.

Definition set_doc (x : Document) (w : World) : World :=
  {| upd := upd w; doc := x; globals := globals w; timers := timers w;
     nextTimerId := nextTimerId w; poll_inflight := poll_inflight w;
     sent := sent w; page_inflight := page_inflight w; posts := posts w;
     console := console w; reloads := reloads w;
     lastUserAction := lastUserAction w; recentUpdates := recentUpdates w;
     notifications := notifications w;
     audio_triggers := audio_triggers w |}.

Definition set_globals (x : Globals) (w : World) : World :=
  {| upd := upd w; doc := doc w; globals := x; timers := timers w;
     nextTimerId := nextTimerId w; poll_inflight := poll_inflight w;
     sent := sent w; page_inflight := page_inflight w; posts := posts w;
     console := console w; reloads := reloads w;
     lastUserAction := lastUserAction w; recentUpdates := recentUpdates w;
     notifications := notifications w;
     audio_triggers := audio_triggers w |}.

Definition set_timers (x : list Timer) (w : World) : World :=
  {| upd := upd w; doc := doc w; globals := globals w; timers := x;
     nextTimerId := nextTimerId w; poll_inflight := poll_inflight w;
     sent := sent w; page_inflight := page_inflight w; posts := posts w;
     console := console w; reloads := reloads w;
     lastUserAction := lastUserAction w; recentUpdates := recentUpdates w;
     notifications := notifications w;
     audio_triggers := audio_triggers w |}.

Definition set_nextTimerId (x : nat) (w : World) : World :=
  {| upd := upd w; doc := doc w; globals := globals w; timers := timers w;
     nextTimerId := x; poll_inflight := poll_inflight w; sent := sent w;
     page_inflight := page_inflight w; posts := posts w;
     console := console w; reloads := reloads w;
     lastUserAction := lastUserAction w; recentUpdates := recentUpdates w;
     notifications := notifications w;
     audio_triggers := audio_triggers w |}.

Definition set_poll_inflight (x : nat) (w : World) : World :=
  {| upd := upd w; doc := doc w; globals := globals w; timers := timers w;
     nextTimerId := nextTimerId w; poll_inflight := x; sent := sent w;
     page_inflight := page_inflight w; posts := posts w;
     console := console w; reloads := reloads w;
     lastUserAction := lastUserAction w; recentUpdates := recentUpdates w;
     notifications := notifications w;
     audio_triggers := audio_triggers w |}.

Definition set_sent (x : list (string * option Z)) (w : World) : World :=
  {| upd := upd w; doc := doc w; globals := globals w; timers := timers w;
     nextTimerId := nextTimerId w; poll_inflight := poll_inflight w;
     sent := x; page_inflight := page_inflight w; posts := posts w;
     console := console w; reloads := reloads w;
     lastUserAction := lastUserAction w; recentUpdates := recentUpdates w;
     notifications := notifications w;
     audio_triggers := audio_triggers w |}.

Definition set_page_inflight (x : list PageKind) (w : World) : World :=
  {| upd := upd w; doc := doc w; globals := globals w; timers := timers w;
     nextTimerId := nextTimerId w; poll_inflight := poll_inflight w;
     sent := sent w; page_inflight := x; posts := posts w;
     console := console w; reloads := reloads w;
     lastUserAction := lastUserAction w; recentUpdates := recentUpdates w;
     notifications := notifications w;
     audio_triggers := audio_triggers w |}.

Definition set_posts (x : list (string * nat)) (w : World) : World :=
  {| upd := upd w; doc := doc w; globals := globals w; timers := timers w;
     nextTimerId := nextTimerId w; poll_inflight := poll_inflight w;
     sent := sent w; page_inflight := page_inflight w; posts := x;
     console := console w; reloads := reloads w;
     lastUserAction := lastUserAction w; recentUpdates := recentUpdates w;
     notifications := notifications w;
     audio_triggers := audio_triggers w |}.

Definition set_console (x : list string) (w : World) : World :=
  {| upd := upd w; doc := doc w; globals := globals w; timers := timers w;
     nextTimerId := nextTimerId w; poll_inflight := poll_inflight w;
     sent := sent w; page_inflight := page_inflight w; posts := posts w;
     console := x; reloads := reloads w;
     lastUserAction := lastUserAction w; recentUpdates := recentUpdates w;
     notifications := notifications w;
     audio_triggers := audio_triggers w |}.

Definition set_reloads (x : nat) (w : World) : World :=
  {| upd := upd w; doc := doc w; globals := globals w; timers := timers w;
     nextTimerId := nextTimerId w; poll_inflight := poll_inflight w;
     sent := sent w; page_inflight := page_inflight w; posts := posts w;
     console := console w; reloads := x;
     lastUserAction := lastUserAction w; recentUpdates := recentUpdates w;
     notifications := notifications w;
     audio_triggers := audio_triggers w |}.

Definition set_lastUserAction (x : option Z) (w : World) : World :=
  {| upd := upd w; doc := doc w; globals := globals w; timers := timers w;
     nextTimerId := nextTimerId w; poll_inflight := poll_inflight w;
     sent := sent w; page_inflight := page_inflight w; posts := posts w;
     console := console w; reloads := reloads w; lastUserAction := x;
     recentUpdates := recentUpdates w; notifications := notifications w;
     audio_triggers := audio_triggers w |}.

Definition set_recentUpdates (x : gmap string Z) (w : World) : World :=
  {| upd := upd w; doc := doc w; globals := globals w; timers := timers w;
     nextTimerId := nextTimerId w; poll_inflight := poll_inflight w;
     sent := sent w; page_inflight := page_inflight w; posts := posts w;
     console := console w; reloads := reloads w;
     lastUserAction := lastUserAction w; recentUpdates := x;
     notifications := notifications w;
     audio_triggers := audio_triggers w |}.

Definition set_notifications (x : list (string * string)) (w : World) : World :=
  {| upd := upd w; doc := doc w; globals := globals w; timers := timers w;
     nextTimerId := nextTimerId w; poll_inflight := poll_inflight w;
     sent := sent w; page_inflight := page_inflight w; posts := posts w;
     console := console w; reloads := reloads w;
     lastUserAction := lastUserAction w; recentUpdates := recentUpdates w;
     notifications := x; audio_triggers := audio_triggers w |}.

Definition set_audio_triggers (x : nat) (w : World) : World :=
  {| upd := upd w; doc := doc w; globals := globals w; timers := timers w;
     nextTimerId := nextTimerId w; poll_inflight := poll_inflight w;
     sent := sent w; page_inflight := page_inflight w; posts := posts w;
     console := console w; reloads := reloads w;
     lastUserAction := lastUserAction w; recentUpdates := recentUpdates w;
     notifications := notifications w; audio_triggers := x |}.

(** ** Browser primitives *)

(** [console.log] / [console.error] *)
Definition log (msg : string) (w : World) : World :=
  set_console (console w ++ [msg]) w.

(** [setTimeout(cb, ms)]: a fresh id, the timer pending. *)
Definition setTimeout (cb : Callback) (ms : Z) (w : World) : nat * World :=
  let id := nextTimerId w in
  (id, set_nextTimerId (S id)
         (set_timers (timers w ++ [mkTimer id ms cb]) w)).

(** [clearTimeout(id)] *)
Definition clearTimeout (id : nat) (w : World) : World :=
  set_timers (List.filter (fun t => negb (Nat.eqb (timer_id t) id)) (timers w)) w.

(** [window.location.reload()] *)
Definition reload (w : World) : World :=
  set_reloads (S (reloads w)) w.

(** A [fetch] of the sync endpoint leaves: the request is recorded with
    the page and the cursor that went into its URL. *)
Definition fetch_sync (w : World) : World :=
  set_poll_inflight (S (poll_inflight w))
    (set_sent (sent w ++ [(currentPage (upd w), lastUpdate (upd w))]) w).

(** A [fetch(window.location.href)] leaves. *)
Definition fetch_page (k : PageKind) (w : World) : World :=
  set_page_inflight (page_inflight w ++ [k]) w.

(** ** RealTimeUpdater *)

Module RealTimeUpdater.

Definition getCurrentPage (path : string) : string :=
  if Js.includes "/routes" path then "routes"
  else if Js.includes "/dashboard" path then "dashboard"
  else if Js.includes "/students" path then "students"
  else if Js.includes "/staff" path then "staff"
  else if Js.includes "/schools" path then "schools"
  else "general".

Inductive ConnStatus := Connected | Disconnected | Failed.

Definition base_indicator_class : string :=
  "position-fixed top-0 end-0 m-3 p-2 rounded shadow-sm".

Definition showConnectionStatus (st : ConnStatus) (w : World) : World :=
  let ind :=
    match indicator (doc w) with
    | Some i => i
    | None => mkIndicator base_indicator_class None "" None
    end in
  match st with
  | Connected =>
      let ind' := mkIndicator (base_indicator_class +:+ " bg-success text-white")
                    (Some "fas fa-wifi me-1") "Connected" (ind_display ind) in
      snd (setTimeout CbHideIndicator 3000
             (set_doc (with_indicator (Some ind') (doc w)) w))
  | Disconnected =>
      let ind' := mkIndicator (base_indicator_class +:+ " bg-warning text-dark")
                    (Some "fas fa-wifi me-1") "Reconnecting..." (Some "block") in
      set_doc (with_indicator (Some ind') (doc w)) w
  | Failed =>
      let ind' := mkIndicator (base_indicator_class +:+ " bg-danger text-white")
                    (Some "fas fa-exclamation-triangle me-1") "Connection Failed"
                    (Some "block") in
      set_doc (with_indicator (Some ind') (doc w)) w
  end.

(** [isUserAction()]: reads the clock and [localStorage], logs when the
    last action is recent. *)
Definition isUserAction (now : Z) (w : World) : bool * World :=
  let lastAction := default 0 (lastUserAction w) in
  let isRecent := (now - lastAction) <? 10000 in
  (isRecent,
   if isRecent then log "Recent user action detected, skipping notifications" w
   else w).

(** [updateRouteData(routes)].  The loop touches the document only; the
    rest of the function is the log line behind
    [hasChanges && !this.isUserAction()]. *)
Definition updateRouteData (now : Z) (entries : list (string * RouteData))
    (w : World) : World :=
  let '(d, hasChanges) := patch_routes (doc w) entries in
  let w1 := set_doc d w in
  if hasChanges then
    let '(recent, w2) := isUserAction now w1 in
    if recent then w2
    else log "Routes updated from another device - changes detected" w2
  else w1.

(** [refreshRoutesPage()] up to the [await fetch] of
    [updateRoutesContent]. *)
Definition refreshRoutesPage (w : World) : World :=
  fetch_page RoutesPage w.

(** [refreshStudentsPage()] up to the [await fetch] of
    [updateStudentsContent]. *)
Definition refreshStudentsPage (now : Z) (w : World) : World :=
  let '(recent, w1) := isUserAction now w in
  if recent then w1 else fetch_page StudentsPage w1.

Definition handleSyncData (now : Z) (data : SyncData) (w : World) : World :=
  if String.eqb (currentPage (upd w)) "routes" && routes_updated data then
    reload
      (log "Route status changes detected from other devices - refreshing page" w)
  else
    match String.eqb (currentPage (upd w)) "routes", routes data with
    | true, Some entries =>
        let w1 := updateRouteData now entries w in
        if needs_refresh data then refreshRoutesPage w1 else w1
    | _, _ =>
        if String.eqb (currentPage (upd w)) "students" && needs_refresh data
        then refreshStudentsPage now w
        else w
    end.

(** [poll()] up to [await fetch]. *)
Definition poll (w : World) : World :=
  if negb (isPolling (upd w)) then w else fetch_sync w.

(** The [try] block of [poll()] after the fetch settled: the world it
    leaves and the exception it raised, if any. *)
Definition poll_try (now : Z) (o : PollOutcome) (w : World)
  : World * option string :=
  match o with
  | FetchRejected err => (w, Some err)
  | ResponseNotOk => (w, None)
  | JsonRejected err => (w, Some err)
  | JsonData data =>
      if success data then
        let w1 := handleSyncData now data w in
        (set_upd (set_lastUpdate (timestamp data) (upd w1)) w1, None)
      else (w, None)
  end.

(** The [catch] block of [poll()]. *)
Definition poll_catch (err : string) (w : World) : World :=
  showConnectionStatus Disconnected (log ("Polling error: " +:+ err) w).

(** "Schedule next poll" *)
Definition poll_schedule (w : World) : World :=
  if isPolling (upd w) then
    let '(id, w1) := setTimeout CbPoll (pollInterval (upd w)) w in
    set_upd (set_pollTimer (Some id) (upd w1)) w1
  else w.

(** [poll()] from the settled fetch to its end.  The result is a world:
    the function has no path on which an exception leaves it. *)
Definition poll_resume (now : Z) (o : PollOutcome) (w : World) : World :=
  let '(w1, exn) := poll_try now o w in
  let w2 := match exn with
            | Some err => poll_catch err w1
            | None => w1
            end in
  poll_schedule w2.

Definition startPolling (w : World) : World :=
  if isPolling (upd w) then w
  else
    let w1 := set_upd (set_isPolling true (upd w)) w in
    showConnectionStatus Connected (poll w1).

(** [if (this.pollTimer)]: [null] and [0] are falsy. *)
Definition truthy_timer (t : option nat) : option nat :=
  match t with
  | Some (S n) => Some (S n)
  | _ => None
  end.

Definition stopPolling (w : World) : World :=
  let w1 := set_upd (set_isPolling false (upd w)) w in
  match truthy_timer (pollTimer (upd w1)) with
  | Some id =>
      let w2 := clearTimeout id w1 in
      set_upd (set_pollTimer None (upd w2)) w2
  | None => w1
  end.

(** [init()] *)
Definition init (w : World) : World :=
  if String.eqb (currentPage (upd w)) "routes" then
    startPolling (log "Real-time sync enabled for Transport Check-in page" w)
  else
    stopPolling
      (log ("Real-time sync disabled for " +:+ currentPage (upd w) +:+
            " - manual refresh required") w).

(** [new RealTimeUpdater()] on a page at [path], showing [d]. *)
Definition constructor (path : string) (d : Document) (g : Globals)
    (lastAction : option Z) : World :=
  init {| upd := mkUpdater (getCurrentPage path) 5000 (Some 0) None false;
          doc := d; globals := g; timers := []; nextTimerId := 1;
          poll_inflight := 0; sent := []; page_inflight := []; posts := [];
          console := []; reloads := 0; lastUserAction := lastAction;
          recentUpdates := ∅; notifications := []; audio_triggers := 0 |}.

End RealTimeUpdater.

(** ** The change guard *)

Module ChangeGuard.

(** Modelled from the spec: the guard window.  The function
    [trackUserUpdate] that [cycleRouteStatus] calls is defined outside
    the source files at hand; the specification asks for one fixed
    window and recommends ten seconds. *)
Definition GUARD_WINDOW : Z := 10000.

(** Modelled from the spec: [markChanged(route_id)], the body of the
    missing [trackUserUpdate]: [guarded_until = now + GUARD_WINDOW],
    overwriting any earlier entry of the route. *)
Definition markChanged (now : Z) (routeId : string) (g : gmap string Z)
  : gmap string Z :=
  <[routeId := now + GUARD_WINDOW]> g.


End ChangeGuard.

(** [trackUserUpdate(routeId)] as [cycleRouteStatus] calls it. *)
Definition trackUserUpdate (now : Z) (routeId : string) (w : World) : World :=
  set_recentUpdates (ChangeGuard.markChanged now routeId (recentUpdates w)) w.

(** ** main.js: the status button *)

(** [element.classList.add('loading'); element.disabled = true] *)
Definition showLoadingState (e : Element) : Element :=
  {| className := Js.classList_add "loading" (className e);
     currentStatus := currentStatus e;
     processing := processing e;
     innerHTML := innerHTML e;
     disabled := true |}.

(** [element.classList.remove('loading'); element.disabled = false] *)
Definition hideLoadingState (e : Element) : Element :=
  {| className := Js.classList_remove "loading" (className e);
     currentStatus := currentStatus e;
     processing := processing e;
     innerHTML := innerHTML e;
     disabled := false |}.

(** The [switch] of [cycleRouteStatus] on [button.dataset.currentStatus]. *)
Definition nextStatus (current : option string) : string :=
  match current with
  | Some s =>
      if String.eqb s "not_present" then "arrived"
      else if String.eqb s "arrived" then "ready"
      else if String.eqb s "ready" then "not_present"
      else "not_present"
  | None => "not_present"
  end.

(** The guard at the head of [cycleRouteStatus]. *)
Definition busy (e : Element) : bool :=
  disabled e ||
  match processing e with
  | Some p => String.eqb p "true"
  | None => false
  end.

(** [button.dataset.processing = 'true'; button.disabled = true] *)
Definition mark_processing (e : Element) : Element :=
  {| className := className e;
     currentStatus := currentStatus e;
     processing := Some "true";
     innerHTML := innerHTML e;
     disabled := true |}.

(** The callback of the [setTimeout] in [finally]. *)
Definition reenable (e : Element) : Element :=
  {| className := className e;
     currentStatus := currentStatus e;
     processing := Some "false";
     innerHTML := innerHTML e;
     disabled := false |}.

(** The ternary that picks the button colour from the reply. *)
Definition reply_class (st : string) : string :=
  "status-button btn btn-" +:+
  (if String.eqb st "ready" then "success"
   else if String.eqb st "arrived" then "warning"
   else "danger").

(** The writes of the success branch on the button. *)
Definition show_reply (st : string) (e : Element) : Element :=
  {| className := reply_class st;
     currentStatus := Some st;
     processing := processing e;
     innerHTML := status_html st;
     disabled := disabled e |}.

Definition update_element (f : Element -> Element) (b : nat) (w : World) : World :=
  set_doc (with_heap (alter f b (heap (doc w))) (doc w)) w.

Definition showNotification (msg type : string) (w : World) : World :=
  if showNotification_defined (globals w)
  then set_notifications (notifications w ++ [(msg, type)]) w
  else w.

(** [data.message] as a condition: [undefined] and the empty string are
    falsy. *)
Definition truthy_message (m : option string) : option string :=
  match m with
  | Some EmptyString => None
  | other => other
  end.

(** [cycleRouteStatus(routeId, button)] up to the [fetch].  [newStatus]
    is computed as in the source, which does not use it afterwards: what
    the button shows comes from the server's reply. *)
Definition cycleRouteStatus (now : Z) (routeId : string) (button : nat)
    (w : World) : option World :=
  e ← heap (doc w) !! button;
  if busy e then Some (log "Button click ignored - already processing" w)
  else
    let w1 := update_element mark_processing button w in
    let w2 := if trackUserUpdate_defined (globals w1)
              then trackUserUpdate now routeId w1 else w1 in
    let newStatus := nextStatus (currentStatus e) in
    let w3 := set_lastUserAction (Some now) w2 in
    let w4 := update_element showLoadingState button w3 in
    Some (set_posts (posts w4 ++ [(routeId, button)]) w4).

(** The [.then(data => ...)] handler. *)
Definition cycle_then (button : nat) (data : CycleReply) (w : World) : World :=
  let w1 := update_element hideLoadingState button w in
  if r_success data then
    let w2 := update_element (show_reply (r_status data)) button w1 in
    let w3 := if audioSystem_defined (globals w2)
              then set_audio_triggers (S (audio_triggers w2)) w2 else w2 in
    match truthy_message (r_message data) with
    | Some m => showNotification m "success" w3
    | None => w3
    end
  else
    showNotification
      (default "Failed to update route status" (truthy_message (r_message data)))
      "error" w1.

(** The [.catch(error => ...)] handler. *)
Definition cycle_catch (button : nat) (err : string) (w : World) : World :=
  showNotification "Error updating route status" "error"
    (log ("Error updating route status: " +:+ err)
       (update_element hideLoadingState button w)).

(** The [.finally(...)] handler. *)
Definition cycle_finally (button : nat) (w : World) : World :=
  snd (setTimeout (CbReenable button) 300 w).

(** The promise chain of [cycleRouteStatus] once request [i] settled. *)
Definition cycle_settle (i : nat) (o : PostOutcome) (w : World) : option World :=
  '(routeId, button) ← posts w !! i;
  let w0 := set_posts (delete i (posts w)) w in
  let w1 := match o with
            | PostRejected err => cycle_catch button err w0
            | PostJsonRejected err => cycle_catch button err w0
            | PostJson data => cycle_then button data w0
            end in
  Some (cycle_finally button w1).

(** ** Content-only refresh *)

(** [child.cloneNode(true)] for the elements of the cells of one row:
    the clones are new objects, allocated from [base] on. *)
Fixpoint clone_cells (base : nat) (cs : list (list Element))
  : list (list nat) * list Element :=
  match cs with
  | [] => ([], [])
  | c :: rest =>
      let '(ids, es) := clone_cells (base + length c) rest in
      (seq base (length c) :: ids, c ++ es)
  end.

Fixpoint clone_rows (base : nat) (trs : list TRow) : list Row * list Element :=
  match trs with
  | [] => ([], [])
  | r :: rest =>
      let '(cs, es) := clone_cells base (t_cells r) in
      let '(rs, es') := clone_rows (base + length es) rest in
      (mkRow (t_inputs r) cs :: rs, es ++ es')
  end.

(** The callback of the 200 ms timer of [updateRoutesContent] and
    [updateStudentsContent]: empty the live table body, append clones of
    the fetched rows, restore the opacity.  (The listeners that
    [initializeRouteEvents] and [initializeStudentEvents] attach are not
    part of the modelled state.) *)
Definition swap_rows (trs : list TRow) (w : World) : World :=
  match tbody (doc w) with
  | Some _ =>
      let '(rs, es) := clone_rows (length (heap (doc w))) trs in
      set_doc (with_tbody (Some (mkTBody (Some "1") rs))
                 (with_heap (heap (doc w) ++ es) (doc w))) w
  | None => w
  end.

Definition page_error_prefix (k : PageKind) : string :=
  match k with
  | RoutesPage => "Error updating routes content: "
  | StudentsPage => "Error updating students content: "
  end.

(** The [catch] block of [updateRoutesContent] and
    [updateStudentsContent]: "Fallback to page refresh if smooth update
    fails". *)
Definition content_catch (k : PageKind) (err : string) (w : World) : World :=
  reload (log (page_error_prefix k +:+ err) w).

(** [updateRoutesContent()] / [updateStudentsContent()] from the settled
    fetch on. *)
Definition content_resume (k : PageKind) (o : PageOutcome) (w : World) : World :=
  match o with
  | PageRejected err => content_catch k err w
  | PageTextRejected err => content_catch k err w
  | PageNotOk => w
  | PageHtml newTableBody =>
      match newTableBody, tbody (doc w) with
      | Some trs, Some cur =>
          let w1 := set_doc (with_tbody (Some (mkTBody (Some "0.5") (tb_rows cur)))
                               (doc w)) w in
          snd (setTimeout (CbSwap k trs) 200 w1)
      | _, _ => w
      end
  end.

Fixpoint remove_first (k : PageKind) (l : list PageKind) : option (list PageKind) :=
  match l with
  | [] => None
  | k' :: l' =>
      match k, k' with
      | RoutesPage, RoutesPage | StudentsPage, StudentsPage => Some l'
      | _, _ => cons k' <$> remove_first k l'
      end
  end.

(** ** The event loop *)

Inductive Event :=
| CallStartPolling
| CallStopPolling
| PollSettles (now : Z) (o : PollOutcome)
| PageSettles (k : PageKind) (o : PageOutcome)
| TimerFires (id : nat)
| Click (now : Z) (routeId : string) (button : nat)
| PostSettles (i : nat) (o : PostOutcome).

Definition hide_indicator (w : World) : World :=
  match indicator (doc w) with
  | Some i =>
      set_doc (with_indicator
                 (Some (mkIndicator (ind_className i) (ind_icon i) (ind_text i)
                          (Some "none"))) (doc w)) w
  | None => w
  end.

Definition run_callback (cb : Callback) (w : World) : World :=
  match cb with
  | CbPoll => RealTimeUpdater.poll w
  | CbHideIndicator => hide_indicator w
  | CbSwap _ trs => swap_rows trs w
  | CbReenable b => update_element reenable b w
  end.

Definition fire (id : nat) (w : World) : option World :=
  t ← find (fun t => Nat.eqb (timer_id t) id) (timers w);
  Some (run_callback (callback t) (clearTimeout id w)).

Definition step (w : World) (e : Event) : option World :=
  match e with
  | CallStartPolling => Some (RealTimeUpdater.startPolling w)
  | CallStopPolling => Some (RealTimeUpdater.stopPolling w)
  | PollSettles now o =>
      match poll_inflight w with
      | O => None
      | S n => Some (RealTimeUpdater.poll_resume now o (set_poll_inflight n w))
      end
  | PageSettles k o =>
      l ← remove_first k (page_inflight w);
      Some (content_resume k o (set_page_inflight l w))
  | TimerFires id => fire id w
  | Click now routeId button => cycleRouteStatus now routeId button w
  | PostSettles i o => cycle_settle i o w
  end.

Fixpoint run (w : World) (es : list Event) : option World :=
  match es with
  | [] => Some w
  | e :: rest => w' ← step w e; run w' rest
  end.

(** The worlds a page can be in: it was loaded, then events happened. *)
Definition reachable (w : World) : Prop :=
  ∃ path d g la es, run (RealTimeUpdater.constructor path d g la) es = Some w.

(** * Specification vocabulary *)

(** ** The status cycle *)



(** ** Patching, seen from one element *)

(** The button an entry of the payload resolves to. *)
Definition target (d : Document) (routeId : string) : option nat :=
  match find_row d routeId with
  | Some row => status_button (heap d) row
  | None => None
  end.

(** What one loop iteration does to the element it resolved. *)
Definition estep (rd : RouteData) (e : Element) : Element :=
  if String.eqb (className e) (newClass rd) then e else apply_status rd e.

(** What the whole loop does to the element [id], the targets being
    those of document [d0]. *)
Fixpoint erun (d0 : Document) (id : nat) (entries : list (string * RouteData))
    (e : Element) : Element :=
  match entries with
  | [] => e
  | (routeId, rd) :: rest =>
      erun d0 id rest
        (if decide (target d0 routeId = Some id) then estep rd e else e)
  end.

(** Two documents with the same tree and the same status buttons. *)
Definition same_frame (d d' : Document) : Prop :=
  other_inputs d' = other_inputs d ∧ tbody d' = tbody d ∧
  indicator d' = indicator d ∧
  ∀ id, is_status_button (heap d') id = is_status_button (heap d) id.

(** Two elements that differ at most in what a patch overwrites. *)
Definition same_rest (x y : Element) : Prop :=
  className x = className y ∧ processing x = processing y ∧
  disabled x = disabled y.

(** ** The sync cursor *)

(** The timestamp field of the payload an event delivers to the cursor:
    [Some t] for a successful poll response, [t] being the field or
    [None] when the payload has none. *)
Definition stamp_of (e : Event) : option (option Z) :=
  match e with
  | PollSettles _ (JsonData data) =>
      if success data then Some (timestamp data) else None
  | _ => None
  end.

(** Comparison of two cursor values; [undefined] compares with nothing. *)
Definition cursor_le (a b : option Z) : Prop :=
  match a, b with
  | Some x, Some y => x <= y
  | _, _ => False
  end.

(** Every successful response of the trace carries a timestamp, and the
    timestamps never decrease, starting from [c]. *)
Fixpoint stamps_ascend (c : Z) (es : list Event) : bool :=
  match es with
  | [] => true
  | e :: rest =>
      match stamp_of e with
      | Some (Some z) => (c <=? z) && stamps_ascend z rest
      | Some None => false
      | None => stamps_ascend c rest
      end
  end.

(** The claim as the specification words it: along every execution the
    cursor never decreases. *)
Definition cursor_never_decreases : Prop :=
  ∀ path d g la es e w w',
    run (RealTimeUpdater.constructor path d g la) es = Some w →
    step w e = Some w' →
    cursor_le (lastUpdate (upd w)) (lastUpdate (upd w')).

Definition empty_document : Document := mkDocument [] None [] None.

Definition no_globals : Globals := mkGlobals false false false.

(** A successful payload that carries a timestamp and nothing else. *)
Definition stamp_only (t : Z) : SyncData :=
  mkSyncData true (Some t) false None false.

(** The payload [{success: true}], with or without a timestamp. *)
Definition bare_success (t : option Z) : SyncData :=
  mkSyncData true t false None false.

(** The indicator as [showConnectionStatus('disconnected')] leaves it. *)
Definition disconnected_indicator : Indicator :=
  mkIndicator (RealTimeUpdater.base_indicator_class +:+ " bg-warning text-dark")
    (Some "fas fa-wifi me-1") "Reconnecting..." (Some "block").

(** A routes page that was just loaded: the first poll is in flight. *)
Definition fresh_routes_page : World :=
  RealTimeUpdater.constructor "/routes" empty_document no_globals None.

(** The world a trace leads to from a freshly loaded routes page (the
    page itself when the trace cannot happen). *)
Definition after (es : list Event) : World :=
  default fresh_routes_page (run fresh_routes_page es).

(** ** Hard refresh *)

(** The claim as the specification words it: background sync reloads
    the page only on a routes payload with [routes_updated]. *)
Definition reload_only_on_routes_updated : Prop :=
  ∀ w e w',
    step w e = Some w' → reloads w' ≠ reloads w →
    ∃ now data, e = PollSettles now (JsonData data) ∧
                currentPage (upd w) = "routes" ∧ routes_updated data = true.

(** A successful poll response, on the routes page, whose payload has
    [routes_updated]. *)
Definition structural_change (w : World) (e : Event) : bool :=
  match e with
  | PollSettles _ (JsonData data) =>
      success data && String.eqb (currentPage (upd w)) "routes" &&
      routes_updated data
  | _ => false
  end.

(** A content-only refresh whose page fetch failed with an exception. *)
Definition refresh_failed (e : Event) : bool :=
  match e with
  | PageSettles _ (PageRejected _) | PageSettles _ (PageTextRejected _) => true
  | _ => false
  end.

(** A payload that asks for a content-only refresh of the routes list. *)
Definition refresh_request : SyncData :=
  mkSyncData true (Some 5) false (Some []) true.

(** A payload that reports a structural change. *)
Definition routes_updated_payload : SyncData :=
  mkSyncData true (Some 7) true None false.

(** ** A check-in board with one route *)

(** Route 7, not present: its row holds the checkbox of the route and,
    in the third cell, its status button. *)
Definition board : Document :=
  mkDocument []
    (Some (mkTBody None [mkRow ["7"] [[]; []; [0%nat]]]))
    [mkElement "status-button btn btn-danger" (Some "not_present") None
       (status_html "not_present") false]
    None.

(** The page of that board, loaded on a device whose page defines
    [trackUserUpdate]. *)
Definition board_page : World :=
  RealTimeUpdater.constructor "/routes" board (mkGlobals true false false) None.


(** ** The polling loop *)

Definition is_poll (t : Timer) : bool :=
  match callback t with
  | CbPoll => true
  | _ => false
  end.

(** The pending timers that will run [poll]. *)
Definition poll_timers (w : World) : list Timer :=
  List.filter is_poll (timers w).

Definition is_start (e : Event) : bool :=
  match e with
  | CallStartPolling => true
  | _ => false
  end.

(** The claim as the specification words it: in every execution at most
    one sync fetch is in flight. *)
Definition at_most_one_fetch_in_flight : Prop :=
  ∀ path d g la es w,
    run (RealTimeUpdater.constructor path d g la) es = Some w →
    (poll_inflight w <= 1)%nat.

(** [startPolling] is not called on a stopped poller whose last fetch
    is still in flight. *)
Definition clean_event (w : World) (e : Event) : bool :=
  negb (is_start e) || isPolling (upd w) || Nat.eqb (poll_inflight w) 0.

(** Every call of [startPolling] along the trace is clean. *)
Fixpoint restarts_clean (w : World) (es : list Event) : bool :=
  match es with
  | [] => true
  | e :: rest =>
      clean_event w e &&
      match step w e with
      | Some w' => restarts_clean w' rest
      | None => true
      end
  end.

(** The invariant of the loop: one fetch in flight or one tick pending,
    never both; the pending tick is the one [pollTimer] names; a stopped
    poller has no tick pending. *)
Definition loop_inv (w : World) : Prop :=
  (poll_inflight w + length (poll_timers w) <= 1)%nat ∧
  Forall (λ t, pollTimer (upd w) = Some (timer_id t) ∧ timer_id t ≠ O)
    (poll_timers w) ∧
  (isPolling (upd w) = false → poll_timers w = []) ∧
  nextTimerId w ≠ O.

(** The part of the world the loop lives in is untouched, and no tick
    was added. *)
Definition loop_frame (w w' : World) : Prop :=
  upd w' = upd w ∧ poll_inflight w' = poll_inflight w ∧ sent w' = sent w ∧
  poll_timers w' = poll_timers w ∧ (nextTimerId w ≠ O → nextTimerId w' ≠ O).

(** No event of the trace is a call of [startPolling]. *)
Definition no_start (es : list Event) : bool :=
  forallb (λ e, negb (is_start e)) es.

(** The timer [pollTimer] names, when it names one. *)
Definition named_timer (w : World) : option nat :=
  RealTimeUpdater.truthy_timer (pollTimer (upd w)).

(** ** One request per button *)

Definition posts_of (b : nat) (w : World) : list (string * nat) :=
  List.filter (λ p, Nat.eqb (snd p) b) (posts w).

Definition is_reenable (b : nat) (t : Timer) : bool :=
  match callback t with
  | CbReenable b' => Nat.eqb b' b
  | _ => false
  end.

Definition reenables_of (b : nat) (l : list Timer) : list Timer :=
  List.filter (is_reenable b) l.

(** The invariant of [cycleRouteStatus]: per button, at most one request
    in flight or one re-enable pending, never both, and while there is
    one the button carries [data-processing="true"]. *)
Definition button_inv (w : World) : Prop :=
  ∀ b,
    (length (posts_of b w) + length (reenables_of b (timers w)) <= 1)%nat ∧
    ((1 <= length (posts_of b w) + length (reenables_of b (timers w)))%nat →
     ∃ e, heap (doc w) !! b = Some e ∧ processing e = Some "true").

(** Elements keep their place and their [processing] flag. *)
Definition heap_ok (h h' : list Element) : Prop :=
  ∀ b e, h !! b = Some e → ∃ e', h' !! b = Some e' ∧ processing e' = processing e.

(** No re-enable was added. *)
Definition timers_ok (l l' : list Timer) : Prop :=
  ∀ b, (length (reenables_of b l') <= length (reenables_of b l))%nat.

(** An event that is no business of any button. *)
Definition quiet (w w' : World) : Prop :=
  posts w' = posts w ∧ timers_ok (timers w) (timers w') ∧
  heap_ok (heap (doc w)) (heap (doc w')).

(** The world after the promise chain of request [(routeId, button)]
    ran on outcome [o], the request already taken out of [posts]. *)
Definition settle_chain (button : nat) (o : PostOutcome) (w : World) : World :=
  cycle_finally button
    match o with
    | PostRejected err => cycle_catch button err w
    | PostJsonRejected err => cycle_catch button err w
    | PostJson data => cycle_then button data w
    end.

(** The board after the user clicked the button of route 7. *)
Definition board_clicked : World :=
  default board_page (run board_page [Click 1000 "7" 0%nat]).

(** ** Requests, indicator, refreshes *)

(** Did the [try] block of a tick end in the [catch] block? *)
Definition rejected (o : PollOutcome) : bool :=
  match o with
  | FetchRejected _ | JsonRejected _ => true
  | _ => false
  end.

(** The indicator says "Reconnecting...". *)
Definition shows_reconnecting (w : World) : bool :=
  match indicator (doc w) with
  | Some i => String.eqb (ind_text i) "Reconnecting..."
  | None => false
  end.


(** ** Clicks and replies *)


(** Did the request fail: no reply, no JSON, or [success: false]? *)
Definition request_failed (o : PostOutcome) : bool :=
  match o with
  | PostJson reply => negb (r_success reply)
  | _ => true
  end.

(** The text of the error notification of a failed request. *)
Definition failure_message (o : PostOutcome) : string :=
  match o with
  | PostJson reply =>
      default "Failed to update route status" (truthy_message (r_message reply))
  | _ => "Error updating route status"
  end.

(** What the promise chain makes of the button. *)
Definition settled_button (o : PostOutcome) (e : Element) : Element :=
  match o with
  | PostJson reply =>
      if r_success reply then show_reply (r_status reply) (hideLoadingState e)
      else hideLoadingState e
  | _ => hideLoadingState e
  end.

(** ** What a patch touches *)



(** ** Reading a table back *)

(** The elements a cell refers to. *)
Fixpoint read_cell (h : list Element) (ids : list nat) : option (list Element) :=
  match ids with
  | [] => Some []
  | id :: rest => e ← h !! id; es ← read_cell h rest; Some (e :: es)
  end.

Fixpoint read_cells (h : list Element) (cs : list (list nat))
  : option (list (list Element)) :=
  match cs with
  | [] => Some []
  | c :: rest => x ← read_cell h c; xs ← read_cells h rest; Some (x :: xs)
  end.

(** The rows of a table with their elements in place of the references:
    what the table shows. *)
Fixpoint read_rows (h : list Element) (rs : list Row) : option (list TRow) :=
  match rs with
  | [] => Some []
  | r :: rest =>
      cs ← read_cells h (cells r);
      trs ← read_rows h rest;
      Some (mkTRow (row_inputs r) cs :: trs)
  end.

(** Every reference of the rows is at least [base]. *)
Definition rows_from (base : nat) (rs : list Row) : Prop :=
  Forall (λ r, Forall (Forall (λ id, (base <= id)%nat)) (cells r)) rs.

(** A fetched table body with one route. *)
Definition fetched_rows : list TRow :=
  [mkTRow ["7"] [[]; [];
     [mkElement "status-button btn btn-success" (Some "ready") None
        (status_html "ready") false]]].

(** * main.js: [debounce] and [throttle] *)

(** The function [debounce(func, wait)] returns, with the variable
    [timeout] of its closure, the timers it has pending (each [later]
    closure holds the arguments of its call) and the calls of [func] made
    so far.  [A] is the type of argument lists. *)
Module Debounce.
Section Debounce.
Context {A : Type}.

Record State := mkState {
  wait : Z;
  timeout : option nat;            (* [undefined] or a timer id *)
  pending : list (nat * A);        (* pending [later] timers *)
  next_id : nat;
  invoked : list A                 (* calls of [func], oldest first *)
}.

(** [debounce(func, wait)] *)
Definition debounce (ms : Z) : State := mkState ms None [] 1 [].

(** [clearTimeout(timeout)] *)
Definition clear (t : option nat) (l : list (nat * A)) : list (nat * A) :=
  match t with
  | Some id => List.filter (λ p, negb (Nat.eqb (fst p) id)) l
  | None => l
  end.

(** [executedFunction(...args)] *)
Definition call (args : A) (s : State) : State :=
  let id := next_id s in
  {| wait := wait s;
     timeout := Some id;
     pending := clear (timeout s) (pending s) ++ [(id, args)];
     next_id := S id;
     invoked := invoked s |}.

(** The timer [id] fires: [later] runs. *)
Definition fire (id : nat) (s : State) : option State :=
  '(_, args) ← find (λ p, Nat.eqb (fst p) id) (pending s);
  let fired := List.filter (λ p, negb (Nat.eqb (fst p) id)) (pending s) in
  Some {| wait := wait s;
          timeout := timeout s;
          pending := clear (timeout s) fired;
          next_id := next_id s;
          invoked := invoked s ++ [args] |}.

Inductive Ev := Call (args : A) | Fire (id : nat).

Definition step (s : State) (e : Ev) : option State :=
  match e with
  | Call args => Some (call args s)
  | Fire id => fire id s
  end.

Fixpoint run (s : State) (es : list Ev) : option State :=
  match es with
  | [] => Some s
  | e :: rest => s' ← step s e; run s' rest
  end.

(** The arguments of the last call of a trace. *)
Fixpoint last_call (es : list Ev) (acc : option A) : option A :=
  match es with
  | [] => acc
  | Call args :: rest => last_call rest (Some args)
  | Fire _ :: rest => last_call rest acc
  end.

(** At most one timer is pending; it is the one [timeout] names, it is
    younger than [next_id], and it holds the arguments [a]. *)
Definition inv (a : option A) (s : State) : Prop :=
  (pending s = [] ∨
   ∃ id x, pending s = [(id, x)] ∧ timeout s = Some id ∧ a = Some x) ∧
  (∀ id, timeout s = Some id → (id < next_id s)%nat).

End Debounce.
Arguments State : clear implicits.
Arguments Ev : clear implicits.
End Debounce.

(** The function [throttle(func, limit)] returns, with the variable
    [inThrottle] of its closure, the reset timers pending and the calls
    of [func] made so far. *)
Module Throttle.
Section Throttle.
Context {A : Type}.

Record State := mkState {
  limit : Z;
  inThrottle : bool;               (* [undefined] is falsy *)
  resets : nat;                    (* pending [inThrottle = false] timers *)
  invoked : list A
}.

(** [throttle(func, limit)] *)
Definition throttle (ms : Z) : State := mkState ms false 0 [].

(** A call of the returned function. *)
Definition call (args : A) (s : State) : State :=
  if inThrottle s then s
  else {| limit := limit s; inThrottle := true; resets := S (resets s);
          invoked := invoked s ++ [args] |}.

(** A reset timer fires. *)
Definition fire (s : State) : option State :=
  match resets s with
  | O => None
  | S n => Some {| limit := limit s; inThrottle := false; resets := n;
                   invoked := invoked s |}
  end.

Inductive Ev := Call (args : A) | Fire.

Definition step (s : State) (e : Ev) : option State :=
  match e with
  | Call args => Some (call args s)
  | Fire => fire s
  end.

Fixpoint run (s : State) (es : list Ev) : option State :=
  match es with
  | [] => Some s
  | e :: rest => s' ← step s e; run s' rest
  end.

(** The calls a trace lets through: the first of each window. *)
Fixpoint admitted (open : bool) (es : list Ev) : list A :=
  match es with
  | [] => []
  | Call args :: rest => if open then args :: admitted false rest
                         else admitted false rest
  | Fire :: rest => admitted true rest
  end.

Definition fires (es : list Ev) : nat :=
  length (List.filter (λ e, match e with Fire => true | _ => false end) es).

End Throttle.
Arguments State : clear implicits.
Arguments Ev : clear implicits.
End Throttle.

(** * audio.js: the chime of class accounts *)

Module Audio.

(** The state of an [AudioContext] as the browser reports it. *)
Inductive CtxState := Suspended | Running | Closed.

(** The events [setupUserInteractionListener] listens to. *)
Inductive Interaction := Touchstart | Touchend | Mousedown | Keydown | ClickEv.

Definition interaction_eqb (a b : Interaction) : bool :=
  match a, b with
  | Touchstart, Touchstart | Touchend, Touchend | Mousedown, Mousedown
  | Keydown, Keydown | ClickEv, ClickEv => true
  | _, _ => false
  end.

(** What the constructor finds on the page.  [win_isClassAccount] is
    [window.isClassAccount], [None] when undefined; the [has_*] fields
    are the outcomes of the [querySelector] calls of
    [detectClassAccount]; [has_AudioContext] says whether the browser
    has [AudioContext] or [webkitAudioContext], [ctor_throws] whether
    constructing one throws, [ctor_state] the state of a new context. *)
Record Page := mkPage {
  win_isClassAccount : option bool;
  url : string;
  body_class_account : bool;
  has_account_type_el : bool;
  has_indicator_el : bool;
  has_admin_elements : bool;
  has_AudioContext : bool;
  ctor_throws : bool;
  ctor_state : CtxState
}.

(** One oscillator started by [createTone]: the frequency in hundredths
    of a hertz and the position of the note in the chord, which sets its
    start offset of 20 ms per position. *)
Record Tone := mkTone {
  centihertz : Z;
  position : nat
}.

Record System := mkSystem {
  audioContext : option CtxState;     (* [null] or the context's state *)
  isInitialized : bool;
  isClassAccount : bool;
  chordNotes : list Z;
  isSupported : bool;
  listening : list Interaction;       (* events [initAudio] still listens to *)
  resuming : nat;                     (* [resume()] promises not yet settled *)
  tones : list Tone                   (* oscillators started, oldest first *)
}.

(** [detectClassAccount()] *)
Definition detectClassAccount (p : Page) : bool :=
  match win_isClassAccount p with
  | Some b => b
  | None =>
      let detected :=
        Js.includes "/class" (url p) || body_class_account p ||
        has_account_type_el p || has_indicator_el p in
      if detected then true
      else negb (has_admin_elements p) &&
           (Js.includes "/routes" (url p) || Js.includes "/dashboard" (url p))
  end.

Definition all_interactions : list Interaction :=
  [Touchstart; Touchend; Mousedown; Keydown; ClickEv].

(** [new AudioNotificationSystem()]: the constructor with [init],
    [setupAudioContext] and [setupUserInteractionListener]. *)
Definition constructor (p : Page) : System :=
  let supported := has_AudioContext p in
  let class := detectClassAccount p in
  if class && supported then
    {| audioContext := if ctor_throws p then None else Some (ctor_state p);
       isInitialized := false;
       isClassAccount := class;
       chordNotes := [26163; 32963; 39200];
       isSupported := negb (ctor_throws p);
       listening := all_interactions;
       resuming := 0;
       tones := [] |}
  else
    {| audioContext := None; isInitialized := false; isClassAccount := class;
       chordNotes := [26163; 32963; 39200]; isSupported := supported;
       listening := []; resuming := 0; tones := [] |}.

(** [canPlayAudio()] *)
Definition canPlayAudio (a : System) : bool :=
  isClassAccount a && isSupported a && isInitialized a &&
  match audioContext a with
  | Some Running => true
  | _ => false
  end.

(** [createTone(frequency, 0.6, index * 0.02)]: [None] is the [null]
    it returns without a context or before initialisation. *)
Definition createTone (a : System) (freq : Z) (index : nat) : option Tone :=
  match audioContext a with
  | Some _ => if isInitialized a then Some (mkTone freq index) else None
  | None => None
  end.

(** [playChord()] *)
Definition playChord (a : System) : System :=
  if canPlayAudio a then
    {| audioContext := audioContext a; isInitialized := isInitialized a;
       isClassAccount := isClassAccount a; chordNotes := chordNotes a;
       isSupported := isSupported a; listening := listening a;
       resuming := resuming a;
       tones := tones a ++
                omap (λ '(index, freq), createTone a freq index)
                  (imap (λ index freq, (index, freq)) (chordNotes a)) |}
  else a.

(** [onRouteStatusChange()], [onBulkOperation()] and [testAudio()] all
    play the chord when [canPlayAudio()] holds. *)
Definition onRouteStatusChange (a : System) : System :=
  if canPlayAudio a then playChord a else a.

Definition onBulkOperation (a : System) : System :=
  if canPlayAudio a then playChord a else a.

Definition testAudio (a : System) : bool * System :=
  if canPlayAudio a then (true, playChord a) else (false, a).

Definition set_init (ctx : option CtxState) (a : System) : System :=
  {| audioContext := ctx; isInitialized := true;
     isClassAccount := isClassAccount a; chordNotes := chordNotes a;
     isSupported := isSupported a; listening := [];
     resuming := resuming a; tones := tones a |}.

(** An interaction reaches the document.  A listener registered with
    [once: true] is removed as it runs; [initAudio] then either asks a
    suspended context to resume, or records that a running one is
    initialised and removes the remaining listeners. *)
Definition interact (ev : Interaction) (a : System) : System :=
  if existsb (interaction_eqb ev) (listening a) then
    let rest := List.filter (λ x, negb (interaction_eqb ev x)) (listening a) in
    match audioContext a with
    | Some Suspended =>
        {| audioContext := audioContext a; isInitialized := isInitialized a;
           isClassAccount := isClassAccount a; chordNotes := chordNotes a;
           isSupported := isSupported a; listening := rest;
           resuming := S (resuming a); tones := tones a |}
    | Some Running => set_init (audioContext a) a
    | _ =>
        {| audioContext := audioContext a; isInitialized := isInitialized a;
           isClassAccount := isClassAccount a; chordNotes := chordNotes a;
           isSupported := isSupported a; listening := rest;
           resuming := resuming a; tones := tones a |}
    end
  else a.

Inductive Ev :=
| Interact (ev : Interaction)
| ResumeResolves                      (* a [resume()] promise fulfils *)
| ResumeRejects
| ContextBecomes (st : CtxState)      (* the browser changes the state *)
| RouteStatusChange
| BulkOperation
| TestAudio.

Definition step (a : System) (e : Ev) : option System :=
  match e with
  | Interact ev => Some (interact ev a)
  | ResumeResolves =>
      match resuming a with
      | O => None
      | S n =>
          Some {| audioContext := Some Running; isInitialized := true;
                  isClassAccount := isClassAccount a;
                  chordNotes := chordNotes a; isSupported := isSupported a;
                  listening := []; resuming := n; tones := tones a |}
      end
  | ResumeRejects =>
      match resuming a with
      | O => None
      | S n =>
          Some {| audioContext := audioContext a;
                  isInitialized := isInitialized a;
                  isClassAccount := isClassAccount a;
                  chordNotes := chordNotes a; isSupported := isSupported a;
                  listening := listening a; resuming := n; tones := tones a |}
      end
  | ContextBecomes st =>
      match audioContext a with
      | Some _ =>
          Some {| audioContext := Some st; isInitialized := isInitialized a;
                  isClassAccount := isClassAccount a;
                  chordNotes := chordNotes a; isSupported := isSupported a;
                  listening := listening a; resuming := resuming a;
                  tones := tones a |}
      | None => None
      end
  | RouteStatusChange => Some (onRouteStatusChange a)
  | BulkOperation => Some (onBulkOperation a)
  | TestAudio => Some (snd (testAudio a))
  end.

Fixpoint run (a : System) (es : list Ev) : option System :=
  match es with
  | [] => Some a
  | e :: rest => a' ← step a e; run a' rest
  end.


(** The chord: C4, E4, G4, staggered by position. *)
Definition chord : list Tone :=
  [mkTone 26163 0; mkTone 32963 1; mkTone 39200 2].

(** The number of events of a trace that ask for a chime. *)
Definition chime_requests (es : list Ev) : nat :=
  length (List.filter (λ e, match e with
                            | RouteStatusChange | BulkOperation | TestAudio => true
                            | _ => false
                            end) es).

(** A class account on the check-in page, its context suspended until
    the user touches the page. *)
Definition class_page : Page :=
  mkPage (Some true) "/routes" false false false false true false Suspended.

End Audio.

(** * main.js: [formatNumber] *)

Module Format.

Definition is_digit (c : ascii) : bool :=
  let n := nat_of_ascii c in (48 <=? n)%nat && (n <=? 57)%nat.

(** A word character of a regular expression: a letter, a digit or the
    underscore. *)
Definition is_word (c : ascii) : bool :=
  let n := nat_of_ascii c in
  is_digit c || ((65 <=? n)%nat && (n <=? 90)%nat) ||
  ((97 <=? n)%nat && (n <=? 122)%nat) || (n =? 95)%nat.

(** The length of the run of digits a string starts with. *)
Fixpoint digit_run (s : string) : nat :=
  match s with
  | String c rest => if is_digit c then S (digit_run rest) else O
  | EmptyString => O
  end.

(** The lookahead [(?=(\d{3})+(?!\d))]: some positive number of groups
    of three digits follows and then no digit; the groups must use up
    the whole run of digits. *)
Definition lookahead (s : string) : bool :=
  (0 <? digit_run s)%nat && (digit_run s mod 3 =? 0)%nat.

(** [s.replace(/\B(?=(\d{3})+(?!\d))/g, ',')].  The pattern matches the
    empty string at the positions that are no word boundary and satisfy
    the lookahead; the lookahead makes the next character a digit, so
    [\B] holds exactly when the previous character is a word character.
    [prev_word] tells whether it is. *)
Fixpoint insert_commas (prev_word : bool) (s : string) : string :=
  match s with
  | EmptyString => EmptyString
  | String c rest =>
      let body := String c (insert_commas (is_word c) rest) in
      if prev_word && lookahead s then String "," body else body
  end.

(** [formatNumber(num)], on the string [num.toString()] gives. *)
Definition formatNumber (str : string) : string := insert_commas false str.

Definition comma : ascii := ","%char.

Fixpoint strip_commas (s : string) : string :=
  match s with
  | EmptyString => EmptyString
  | String c rest =>
      if Ascii.eqb c comma then strip_commas rest
      else String c (strip_commas rest)
  end.

Fixpoint all_digits (s : string) : bool :=
  match s with
  | EmptyString => true
  | String c rest => is_digit c && all_digits rest
  end.

(** Digits in groups of three counted from the right: after a digit
    comes a comma when the number of digits still to come is a positive
    multiple of three. *)
Fixpoint grouped (s : string) : string :=
  match s with
  | EmptyString => EmptyString
  | String c rest =>
      if (0 <? String.length rest)%nat && (String.length rest mod 3 =? 0)%nat
      then String c (String "," (grouped rest))
      else String c (grouped rest)
  end.

End Format.

(** * Class lists *)

Fixpoint no_ws (s : string) : bool :=
  match s with
  | EmptyString => true
  | String c rest => negb (Js.is_ws c) && no_ws rest
  end.

(** A class token: not empty, no whitespace. *)
Definition is_token (t : string) : bool :=
  negb (String.eqb t EmptyString) && no_ws t.

(** A [className] as the browser writes it after any [classList]
    operation: the tokens, each once, separated by single spaces. *)
Definition serialized (cls : string) : bool :=
  String.eqb (Js.serialize (Js.token_set cls)) cls.

(** [validateField(field)] seen on [field.className]; [valid] is the
    outcome of [field.checkValidity()]. *)
Definition validateField (valid : bool) (cls : string) : string :=
  if valid
  then Js.classList_add "is-valid" (Js.classList_remove "is-invalid" cls)
  else Js.classList_add "is-invalid" (Js.classList_remove "is-valid" cls).

(** The button [e] after a whole failed round: re-enabled, its
    processing flag 'false'. *)
Definition after_failed_round (e : Element) : Element :=
  {| className := className e; currentStatus := currentStatus e;
     processing := Some "false"; innerHTML := innerHTML e; disabled := false |}.

(** * Timers *)

(** The ids of the pending timers are ids [setTimeout] handed out: they
    are below the next id and pairwise different, and the id
    [pollTimer] holds, if a timer still carries it, belongs to a timer
    that runs [poll]. *)
Definition timer_ids_ok (l : list Timer) (n : nat) (p : option nat) : Prop :=
  Forall (λ t, (timer_id t < n)%nat) l ∧
  NoDup (timer_id <$> l) ∧
  ∀ id, p = Some id →
    (id < n)%nat ∧ ∀ t, t ∈ l → timer_id t = id → callback t = CbPoll.

Definition timer_inv (w : World) : Prop :=
  timer_ids_ok (timers w) (nextTimerId w) (pollTimer (upd w)).

(** The event is the firing of timer [id]. *)
Definition fires_timer (id : nat) (e : Event) : bool :=
  match e with
  | TimerFires id' => Nat.eqb id' id
  | _ => false
  end.

Definition never_fires (id : nat) (es : list Event) : bool :=
  forallb (λ e, negb (fires_timer id e)) es.

(** * Sortable tables *)

Module TableSort.

(** A [th[data-sort]] as it is in the page: its [data-sort], its
    [data-direction] if it has one, and the classes of the [<i>]
    elements inside it, in document order. *)
Record Th := mkTh {
  th_sort : string;
  th_direction : option string;
  th_icons : list string
}.

(** The same header once [initializeTableSorting] went over it, as the
    click handler sees it: [icon] is the class of the element
    [querySelector('i')] finds, the first [<i>] of the header. *)
Record Header := mkHeader {
  sort : string;
  direction : option string;
  icon : string
}.

(** One sortable table: its headers and the calls of
    [sortTableGeneric(table, column, direction)] made so far (the
    reordering of the rows is not part of the state). *)
Record Table := mkTable {
  headers : list Header;
  sorted : list (string * string)
}.

Definition sortIcon : string := "fas fa-sort text-muted".

(** [header.appendChild(sortIcon)], then the first [<i>]. *)
Definition with_icon (h : Th) : Header :=
  mkHeader (th_sort h) (th_direction h) (hd sortIcon (th_icons h ++ [sortIcon])).

(** [initializeTableSorting()] for one [table.sortable] of a page at
    [path]: [None] when the function returns before it attaches any
    handler. *)
Definition initializeTableSorting (path : string) (ths : list Th)
  : option Table :=
  if Js.includes "/students" path then None
  else if Js.includes "/schools" path then None
  else Some (mkTable (with_icon <$> ths) []).

(** [this.dataset.direction || 'asc'], then the ternary. *)
Definition newDirection (d : option string) : string :=
  let direction :=
    match d with
    | Some EmptyString | None => "asc"
    | Some s => s
    end in
  if String.eqb direction "asc" then "desc" else "asc".

Definition icon_class (dir : string) : string :=
  "fas fa-sort-" +:+ (if String.eqb dir "asc" then "up" else "down").

(** The headers after the handler of header [i] wrote [dir]: "Update
    header", "Reset other headers". *)
Definition mark (i : nat) (dir : string) (hs : list Header) : list Header :=
  imap (λ j h, if Nat.eqb j i
               then mkHeader (sort h) (Some dir) (icon_class dir)
               else mkHeader (sort h) None sortIcon) hs.

(** The click handler of header [i]. *)
Definition click (i : nat) (t : Table) : option Table :=
  h ← headers t !! i;
  let dir := newDirection (direction h) in
  Some (mkTable (mark i dir (headers t)) (sorted t ++ [(sort h, dir)])).

Fixpoint clicks (cs : list nat) (t : Table) : option Table :=
  match cs with
  | [] => Some t
  | c :: rest => t' ← click c t; clicks rest t'
  end.

(** The direction the [n]-th click in a row on a column asks for,
    counting from 0. *)
Definition nth_direction (n : nat) : string :=
  if Nat.even n then "desc" else "asc".

End TableSort.
(** * Properties *)

(** ** The status cycle *)




(** ** Patching is idempotent *)

Section Patching.

Lemma newClass_token rd : Js.has_class "status-button" (newClass rd) = true.
Proof. unfold newClass, Js.has_class. by cbn. Qed.

Lemma same_frame_refl d : same_frame d d.
Proof. unfold same_frame. by split_and!. Qed.

Lemma same_frame_trans d1 d2 d3 :
  same_frame d1 d2 → same_frame d2 d3 → same_frame d1 d3.
Proof.
  intros (?&?&?&H12) (?&?&?&H23). unfold same_frame.
  split_and!; congruence.
Qed.

Lemma find_ext_eq {A} (f g : A → bool) (l : list A) :
  (∀ x, f x = g x) → find f l = find g l.
Proof. intros E. induction l as [|x l IH]; simpl; [done|]. by rewrite E, IH. Qed.

Lemma find_some_holds {A} (f : A → bool) (l : list A) x :
  find f l = Some x → f x = true.
Proof.
  induction l as [|y l IH]; simpl; [done|].
  destruct (f y) eqn:E; [by intros [= <-]|done].
Qed.

Lemma target_same_frame d d' routeId :
  same_frame d d' → target d' routeId = target d routeId.
Proof.
  intros (Ho & Ht & _ & Hb). unfold target, find_row, doc_rows, status_button.
  rewrite Ho, Ht. destruct (mem routeId (other_inputs d)); [done|].
  destruct (find _ _) as [row|]; [|done].
  destruct (cells row !! 2%nat); [|done]. by apply find_ext_eq.
Qed.

Lemma target_is_button d routeId b :
  target d routeId = Some b → is_status_button (heap d) b = true.
Proof.
  unfold target, status_button. destruct (find_row d routeId) as [row|]; [|done].
  destruct (cells row !! 2%nat); [|done]. apply find_some_holds.
Qed.

(** One iteration, in terms of [target] and [estep]. *)
Lemma patch_route_heap d routeId rd :
  fst (patch_route d (routeId, rd)) =
  with_heap (match target d routeId with
             | Some b => alter (estep rd) b (heap d)
             | None => heap d
             end) d.
Proof.
  assert (Hid : with_heap (heap d) d = d) by by destruct d.
  unfold patch_route. pose proof (target_is_button d routeId) as Hb.
  unfold target in *. destruct (find_row d routeId) as [row|]; [|done].
  destruct (status_button (heap d) row) as [b|]; [|done].
  specialize (Hb b eq_refl). unfold is_status_button in Hb.
  destruct (heap d !! b) as [e|] eqn:He; [|done].
  unfold estep.
  destruct (String.eqb (className e) (newClass rd)) eqn:Hc; simpl.
  - rewrite <- Hid at 1. f_equal. apply list_eq. intros i.
    rewrite list_lookup_alter. case_decide; [subst|done].
    by rewrite He; simpl; rewrite Hc.
  - f_equal. apply list_eq. intros i.
    destruct (decide (b = i)) as [<-|Hne].
    + rewrite list_lookup_alter_eq, He. simpl. rewrite Hc.
      apply list_lookup_insert_eq. by eapply lookup_lt_Some.
    + by rewrite list_lookup_alter_ne, list_lookup_insert_ne.
Qed.

Lemma estep_class rd e : className (estep rd e) = newClass rd.
Proof.
  unfold estep. destruct (String.eqb_spec (className e) (newClass rd)); by simpl.
Qed.

Lemma estep_rest rd e :
  processing (estep rd e) = processing e ∧ disabled (estep rd e) = disabled e.
Proof. unfold estep. by destruct (String.eqb _ _). Qed.

Lemma estep_idem rd e : estep rd (estep rd e) = estep rd e.
Proof.
  unfold estep at 1. by rewrite estep_class, String.eqb_refl.
Qed.

Lemma patch_route_same_frame d entry :
  same_frame d (fst (patch_route d entry)).
Proof.
  destruct entry as [routeId rd]. rewrite patch_route_heap.
  unfold same_frame; split_and!; try done.
  intros id. simpl. destruct (target d routeId) as [b|] eqn:Hb; [|done].
  apply target_is_button in Hb. unfold is_status_button in *.
  rewrite list_lookup_alter. case_decide; [subst|done].
  destruct (heap d !! id) as [e|]; [|done]. simpl.
  by rewrite Hb, estep_class, newClass_token.
Qed.

(** The loop, element by element. *)
Lemma patch_routes_lookup d0 entries : ∀ d,
  same_frame d0 d →
  same_frame d0 (fst (patch_routes d entries)) ∧
  ∀ id, heap (fst (patch_routes d entries)) !! id =
        erun d0 id entries <$> heap d !! id.
Proof.
  induction entries as [|[routeId rd] rest IH]; intros d Hd;
    cbn [patch_routes erun].
  - split; [done|]. intros id. simpl. by destruct (heap d !! id).
  - pose proof (patch_route_same_frame d (routeId, rd)) as Hf.
    pose proof (patch_route_heap d routeId rd) as Hh.
    destruct (patch_route d (routeId, rd)) as [d1 c1]. simpl in Hf, Hh.
    specialize (IH d1 (same_frame_trans _ _ _ Hd Hf)).
    destruct (patch_routes d1 rest) as [d2 c2]. simpl in *.
    destruct IH as [IH1 IH2]. split; [done|]. intros id. rewrite IH2, Hh.
    simpl. rewrite (target_same_frame d0 d routeId Hd).
    destruct (target d0 routeId) as [b|].
    + rewrite list_lookup_alter. destruct (decide (b = id)) as [->|Hne].
      * destruct (heap d !! id); [simpl|done]. by rewrite decide_True.
      * destruct (heap d !! id); [simpl|done].
        rewrite decide_False; [done|congruence].
    + by destruct (heap d !! id).
Qed.

Lemma erun_rest d0 id entries : ∀ e,
  processing (erun d0 id entries e) = processing e ∧
  disabled (erun d0 id entries e) = disabled e.
Proof.
  induction entries as [|[routeId rd] rest IH]; intros e; simpl; [done|].
  destruct (IH (if decide (target d0 routeId = Some id) then estep rd e else e))
    as [-> ->].
  case_decide; [apply estep_rest|done].
Qed.

(** Two runs of the loop over elements that agree on what the loop
    reads either end in the same element or never write. *)
Lemma erun_sync d0 id entries : ∀ x y,
  same_rest x y →
  erun d0 id entries x = erun d0 id entries y ∨
  (erun d0 id entries x = x ∧ erun d0 id entries y = y).
Proof.
  induction entries as [|[routeId rd] rest IH]; intros x y Hxy; simpl.
  - by right.
  - case_decide; [|by apply IH]. unfold estep.
    destruct Hxy as (Hc & Hp & Hd). rewrite <- Hc.
    destruct (String.eqb (className x) (newClass rd)).
    + by apply IH.
    + left. f_equal. unfold apply_status. by rewrite Hp, Hd.
Qed.

Lemma erun_idem d0 id entries : ∀ e,
  erun d0 id entries (erun d0 id entries e) = erun d0 id entries e.
Proof.
  induction entries as [|[routeId rd] rest IH]; intros e; [done|].
  simpl. case_decide as Ht; [|apply IH].
  set (e1 := estep rd e). set (s1 := erun d0 id rest e1).
  destruct (erun_rest d0 id rest e1) as [Hp Hd].
  destruct (estep_rest rd s1) as [Hp' Hd'].
  destruct (erun_sync d0 id rest (estep rd s1) e1) as [E|[E1 E2]].
  - unfold same_rest. rewrite estep_class. unfold e1 at 1.
    rewrite estep_class. fold s1 in Hp, Hd. split_and!; congruence.
  - done.
  - fold s1 in E2. rewrite E1, E2. unfold e1. apply estep_idem.
Qed.

Lemma document_eq d d' :
  same_frame d d' → heap d' = heap d → d' = d.
Proof.
  destruct d, d'. unfold same_frame. simpl. intros (-> & -> & -> & _) ->. done.
Qed.

Lemma patch_routes_idem d entries :
  fst (patch_routes (fst (patch_routes d entries)) entries) =
  fst (patch_routes d entries).
Proof.
  destruct (patch_routes_lookup d entries d (same_frame_refl d)) as [F1 L1].
  destruct (patch_routes_lookup d entries _ F1) as [F2 L2].
  apply document_eq.
  - destruct F1 as (?&?&?&B1), F2 as (?&?&?&B2). unfold same_frame.
    split_and!; congruence.
  - apply list_eq. intros id. rewrite L2, L1.
    destruct (heap d !! id); [simpl|done]. by rewrite erun_idem.
Qed.

Lemma updateRouteData_doc now entries w :
  doc (RealTimeUpdater.updateRouteData now entries w) =
  fst (patch_routes (doc w) entries).
Proof.
  unfold RealTimeUpdater.updateRouteData, RealTimeUpdater.isUserAction.
  destruct (patch_routes (doc w) entries) as [d c]. simpl.
  destruct c; [|done]. by destruct (_ <? _).
Qed.

Lemma patch_route_changed d routeId rd :
  snd (patch_route d (routeId, rd)) =
  match target d routeId with
  | Some b =>
      match heap d !! b with
      | Some e => negb (String.eqb (className e) (newClass rd))
      | None => false
      end
  | None => false
  end.
Proof.
  unfold patch_route, target. destruct (find_row d routeId) as [row|]; [|done].
  destruct (status_button (heap d) row) as [b|]; [|done].
  destruct (heap d !! b) as [e|]; [|done]. by destruct (String.eqb _ _).
Qed.

(** A single delta applied a second time finds the class it wrote and
    writes nothing. *)
Lemma single_delta_second_apply_writes_nothing d entry :
  snd (patch_route (fst (patch_route d entry)) entry) = false.
Proof.
  destruct entry as [routeId rd].
  pose proof (patch_route_same_frame d (routeId, rd)) as F.
  pose proof (target_same_frame _ _ routeId F) as T.
  rewrite patch_route_changed, T, patch_route_heap.
  destruct (target d routeId) as [b|]; [simpl|done].
  rewrite list_lookup_alter_eq. destruct (heap d !! b); [simpl|done].
  by rewrite estep_class, String.eqb_refl.
Qed.

End Patching.

(** C9: applying the same status delta a second time changes nothing in
    the document: after [updateRouteData] ran on a payload, running it
    again on that payload leaves every element, so also the class and
    the text of every status button, as the first run left it. *)
Theorem status_delta_idempotent (now1 now2 : Z)
    (entries : list (string * RouteData)) (w : World) :
  let w1 := RealTimeUpdater.updateRouteData now1 entries w in
  doc (RealTimeUpdater.updateRouteData now2 entries w1) = doc w1.
Proof.
  intros w1. subst w1. rewrite !updateRouteData_doc. apply patch_routes_idem.
Qed.

(** ** Frame lemmas *)

(** Case split on whatever the goal or a hypothesis branches on. *)
Ltac split_match :=
  match goal with
  | |- context [match ?x with _ => _ end] => destruct x eqn:?
  | H : context [match ?x with _ => _ end] |- _ => destruct x eqn:?
  end.

Ltac crush := repeat (simpl in *; simplify_eq; try done; try split_match).

Ltac finish :=
  repeat first [progress intros | split]; try done; try congruence; try lia.

Lemma updateRouteData_frame now entries w :
  let w' := RealTimeUpdater.updateRouteData now entries w in
  upd w' = upd w ∧ timers w' = timers w ∧ nextTimerId w' = nextTimerId w ∧
  poll_inflight w' = poll_inflight w ∧ sent w' = sent w ∧
  page_inflight w' = page_inflight w ∧ posts w' = posts w ∧
  reloads w' = reloads w ∧ globals w' = globals w ∧
  recentUpdates w' = recentUpdates w ∧ lastUserAction w' = lastUserAction w.
Proof.
  unfold RealTimeUpdater.updateRouteData, RealTimeUpdater.isUserAction.
  destruct (patch_routes (doc w) entries) as [d c]. simpl.
  destruct c; [|done]. by destruct (_ <? _).
Qed.

Lemma handleSyncData_upd now data w :
  upd (RealTimeUpdater.handleSyncData now data w) = upd w.
Proof.
  unfold RealTimeUpdater.handleSyncData, RealTimeUpdater.refreshRoutesPage,
    RealTimeUpdater.refreshStudentsPage, RealTimeUpdater.isUserAction.
  destruct (updateRouteData_frame now (default [] (routes data)) w) as (H&_).
  crush.
Qed.

(** ** One poll tick *)

(** On the payload [{success: true}] the tick leaves the document alone
    and stores the payload's timestamp field in the cursor, whatever it
    is. *)
Lemma bare_success_tick (now : Z) (t : option Z) (w : World) :
  let w' := RealTimeUpdater.poll_resume now (JsonData (bare_success t)) w in
  doc w' = doc w ∧ lastUpdate (upd w') = t.
Proof.
  unfold RealTimeUpdater.poll_resume, RealTimeUpdater.poll_try,
    RealTimeUpdater.poll_schedule, RealTimeUpdater.handleSyncData. simpl.
  rewrite !andb_false_r. destruct (String.eqb _ "routes"); simpl;
    by destruct (isPolling (upd w)).
Qed.

(** C3, evaluated: a routes page polls, the server answers with
    timestamp 1000, the next poll is answered by [{success: true}]
    without a timestamp.  The second tick leaves the document unchanged,
    but the cursor, 1000 before it, is [undefined] after it, and
    [undefined] is what the following request sends as [last_update]. *)
Theorem bare_success_without_timestamp_clears_cursor :
  let w1 := after [PollSettles 0 (JsonData (stamp_only 1000)); TimerFires 2] in
  let w2 := after [PollSettles 0 (JsonData (stamp_only 1000)); TimerFires 2;
                   PollSettles 1 (JsonData (bare_success None))] in
  let w3 := after [PollSettles 0 (JsonData (stamp_only 1000)); TimerFires 2;
                   PollSettles 1 (JsonData (bare_success None)); TimerFires 3] in
  step w1 (PollSettles 1 (JsonData (bare_success None))) = Some w2 ∧
  step w2 (TimerFires 3) = Some w3 ∧
  lastUpdate (upd w1) = Some 1000 ∧
  doc w2 = doc w1 ∧
  lastUpdate (upd w2) = None ∧
  last (sent w3) = Some ("routes", None).
Proof. vm_compute. by split_and!. Qed.

(** C4: a tick whose fetch rejects, on a poller that is still running
    when the rejection arrives: [poll] completes (its result is a world,
    no exception leaves it), the error is logged, the cursor and the
    interval are unchanged, the indicator shows the disconnected state,
    no request is issued by the failure itself, and the next tick is
    pending on the ordinary interval; when it fires it issues the one
    retry. *)
Theorem network_failure_tick (now : Z) (err : string) (w : World) :
  isPolling (upd w) = true →
  let w' := RealTimeUpdater.poll_resume now (FetchRejected err) w in
  console w' = console w ++ ["Polling error: " +:+ err] ∧
  lastUpdate (upd w') = lastUpdate (upd w) ∧
  pollInterval (upd w') = pollInterval (upd w) ∧
  indicator (doc w') = Some disconnected_indicator ∧
  sent w' = sent w ∧ poll_inflight w' = poll_inflight w ∧
  timers w' = timers w ++ [mkTimer (nextTimerId w) (pollInterval (upd w)) CbPoll] ∧
  pollTimer (upd w') = Some (nextTimerId w) ∧
  poll_inflight (run_callback CbPoll w') = S (poll_inflight w').
Proof.
  intros Hp w'. subst w'.
  unfold RealTimeUpdater.poll_resume, RealTimeUpdater.poll_try,
    RealTimeUpdater.poll_catch, RealTimeUpdater.poll_schedule. simpl.
  rewrite Hp. simpl. split_and!; try done.
  unfold RealTimeUpdater.poll. simpl. by rewrite Hp.
Qed.

Lemma network_failure_tick_witness :
  isPolling (upd fresh_routes_page) = true ∧
  lastUpdate (upd (RealTimeUpdater.poll_resume 0 (FetchRejected "Failed to fetch")
                     fresh_routes_page)) = Some 0.
Proof.
  split; [vm_compute; reflexivity|].
  apply (network_failure_tick 0 "Failed to fetch" fresh_routes_page).
  vm_compute; reflexivity.
Defined.

(** ** What each event does to the cursor *)

Ltac unfold_step :=
  unfold step, fire, cycle_settle, cycleRouteStatus, cycle_finally, cycle_then,
    cycle_catch, showNotification, trackUserUpdate, update_element,
    content_resume, content_catch, run_callback, swap_rows, hide_indicator,
    RealTimeUpdater.startPolling, RealTimeUpdater.stopPolling,
    RealTimeUpdater.poll_resume, RealTimeUpdater.poll_try,
    RealTimeUpdater.poll_catch, RealTimeUpdater.poll_schedule,
    RealTimeUpdater.poll, RealTimeUpdater.showConnectionStatus,
    RealTimeUpdater.truthy_timer, setTimeout, clearTimeout, reload, log,
    fetch_sync, fetch_page in *.

Lemma step_cursor w e w' :
  step w e = Some w' →
  lastUpdate (upd w') =
  match stamp_of e with
  | Some t => t
  | None => lastUpdate (upd w)
  end.
Proof.
  intros H. destruct e as [| |now o|k o|id|now routeId button|i o].
  - unfold_step. crush.
  - unfold_step. crush.
  - unfold_step. destruct (poll_inflight w); [done|].
    destruct o as [err| |err|data]; simpl in *.
    1-3: crush.
    pose proof (handleSyncData_upd now data (set_poll_inflight n w)) as Hu.
    destruct (success data); simpl in *; [|crush].
    destruct (isPolling (upd (RealTimeUpdater.handleSyncData _ _ _))); crush.
  - unfold_step. destruct (remove_first k (page_inflight w)); [|done].
    simpl in H. destruct o; crush.
  - unfold_step. destruct (find _ _) as [t|]; [|done]. simpl in H.
    destruct (callback t); crush.
  - unfold_step. destruct (heap (doc w) !! button); [|done]. simpl in H. crush.
  - unfold_step. destruct (posts w !! i) as [[r b]|]; [|done]. simpl in H.
    destruct o; crush.
Qed.

Lemma run_app es1 : ∀ es2 w,
  run w (es1 ++ es2) = run w es1 ≫= λ w1, run w1 es2.
Proof.
  induction es1 as [|e es1 IH]; intros es2 w; simpl; [done|].
  destruct (step w e); simpl; [apply IH|done].
Qed.

Lemma constructor_cursor path d g la :
  lastUpdate (upd (RealTimeUpdater.constructor path d g la)) = Some 0.
Proof.
  unfold RealTimeUpdater.constructor, RealTimeUpdater.init. unfold_step. crush.
Qed.

(** The cursor after a trace: unchanged, or the timestamp field of one
    of its successful responses. *)
Lemma cursor_origin es : ∀ w w',
  run w es = Some w' →
  lastUpdate (upd w') = lastUpdate (upd w) ∨
  ∃ e, e ∈ es ∧ stamp_of e = Some (lastUpdate (upd w')).
Proof.
  induction es as [|e es IH]; intros w w' H; simpl in H; [left; congruence|].
  destruct (step w e) as [w1|] eqn:Hs; [simpl in H|done].
  apply step_cursor in Hs. destruct (IH _ _ H) as [E|(e' & Hin & E)].
  - rewrite E, Hs. destruct (stamp_of e) eqn:St; [|by left].
    right. exists e. split; [left|done].
  - right. exists e'. split; [by right|done].
Qed.

Lemma cursor_ascends es : ∀ w w' c x,
  lastUpdate (upd w) = Some x → x <= c →
  stamps_ascend c es = true → run w es = Some w' →
  ∃ y, lastUpdate (upd w') = Some y ∧ x <= y.
Proof.
  induction es as [|e es IH]; intros w w' c x Hx Hc Ha H; simpl in *.
  - exists x. split; [congruence|lia].
  - destruct (step w e) as [w1|] eqn:Hs; [simpl in H|done].
    apply step_cursor in Hs. destruct (stamp_of e) as [[z|]|]; [|done|].
    + apply andb_true_iff in Ha as [Hz Ha]. apply Z.leb_le in Hz.
      destruct (IH w1 w' z z Hs ltac:(lia) Ha H) as (y & ? & ?).
      exists y. split; [done|lia].
    + apply (IH w1 w' c x); [congruence|done..].
Qed.

Lemma cursor_ascends_from es1 : ∀ es2 w w1 w2 c x,
  lastUpdate (upd w) = Some x → x <= c →
  stamps_ascend c (es1 ++ es2) = true →
  run w es1 = Some w1 → run w1 es2 = Some w2 →
  cursor_le (lastUpdate (upd w1)) (lastUpdate (upd w2)).
Proof.
  induction es1 as [|e es1 IH]; intros es2 w w1 w2 c x Hx Hc Ha H1 H2;
    simpl in *.
  - simplify_eq. destruct (cursor_ascends _ _ _ _ _ Hx Hc Ha H2) as (y & Hy & ?).
    by rewrite Hx, Hy.
  - destruct (step w e) as [w0|] eqn:Hs; [simpl in H1|done].
    apply step_cursor in Hs. destruct (stamp_of e) as [[z|]|]; [|done|].
    + apply andb_true_iff in Ha as [Hz Ha].
      apply (IH es2 w0 w1 w2 z z); [done|lia|done..].
    + apply (IH es2 w0 w1 w2 c x); [congruence|done..].
Qed.

(** C2, as stated, fails: the server answers 100, then 50, and the
    cursor follows it down. *)
Lemma cursor_can_decrease : ¬ cursor_never_decreases.
Proof.
  intros H.
  assert (run (RealTimeUpdater.constructor "/routes" empty_document no_globals None)
            [PollSettles 0 (JsonData (stamp_only 100)); TimerFires 2] =
          Some (after [PollSettles 0 (JsonData (stamp_only 100)); TimerFires 2]))
    as H1 by (vm_compute; reflexivity).
  assert (step (after [PollSettles 0 (JsonData (stamp_only 100)); TimerFires 2])
            (PollSettles 1 (JsonData (stamp_only 50))) =
          Some (after [PollSettles 0 (JsonData (stamp_only 100)); TimerFires 2;
                       PollSettles 1 (JsonData (stamp_only 50))]))
    as H2 by (vm_compute; reflexivity).
  specialize (H _ _ _ _ _ _ _ _ H1 H2). vm_compute in H. by apply H.
Qed.

(** C2, amended: the cursor is 0 when the page has loaded; whatever
    happens, it is afterwards either what it was or the timestamp field
    of a successful poll response received in between; and along every
    execution in which each successful response carries a timestamp that
    is at least 0 and at least the timestamp of the successful response
    before it, the cursor never decreases. *)
Theorem cursor_monotone_when_stamps_ascend (path : string) (d : Document)
    (g : Globals) (la : option Z) (es1 es2 : list Event) (w1 w2 : World) :
  stamps_ascend 0 (es1 ++ es2) = true →
  run (RealTimeUpdater.constructor path d g la) es1 = Some w1 →
  run w1 es2 = Some w2 →
  lastUpdate (upd (RealTimeUpdater.constructor path d g la)) = Some 0 ∧
  (lastUpdate (upd w2) = lastUpdate (upd w1) ∨
   ∃ e, e ∈ es2 ∧ stamp_of e = Some (lastUpdate (upd w2))) ∧
  cursor_le (lastUpdate (upd w1)) (lastUpdate (upd w2)).
Proof.
  intros Ha H1 H2. split; [apply constructor_cursor|].
  split; [by apply cursor_origin|].
  eapply cursor_ascends_from; eauto using constructor_cursor. lia.
Qed.

Lemma cursor_monotone_when_stamps_ascend_witness :
  cursor_le
    (lastUpdate (upd (after [PollSettles 0 (JsonData (stamp_only 100))])))
    (lastUpdate (upd (after [PollSettles 0 (JsonData (stamp_only 100));
                             TimerFires 2;
                             PollSettles 1 (JsonData (stamp_only 150))]))).
Proof.
  apply (cursor_monotone_when_stamps_ascend "/routes" empty_document no_globals
           None [PollSettles 0 (JsonData (stamp_only 100))]
           [TimerFires 2; PollSettles 1 (JsonData (stamp_only 150))]);
    vm_compute; reflexivity.
Defined.

(** ** Hard refresh *)

Lemma handleSyncData_reloads now data w :
  let w' := RealTimeUpdater.handleSyncData now data w in
  if String.eqb (currentPage (upd w)) "routes" && routes_updated data
  then reloads w' = S (reloads w) ∧ doc w' = doc w ∧
       page_inflight w' = page_inflight w
  else reloads w' = reloads w.
Proof.
  unfold RealTimeUpdater.handleSyncData, RealTimeUpdater.refreshRoutesPage,
    RealTimeUpdater.refreshStudentsPage, RealTimeUpdater.isUserAction.
  destruct (updateRouteData_frame now (default [] (routes data)) w)
    as (_&_&_&_&_&_&_&H&_).
  unfold_step. crush.
Qed.

(** C8, as stated, fails: a payload without [routes_updated] asks for a
    content-only refresh, the page fetch of that refresh rejects, and
    the fallback reloads the page. *)
Lemma reload_without_routes_updated : ¬ reload_only_on_routes_updated.
Proof.
  intros H.
  assert (step (after [PollSettles 0 (JsonData refresh_request)])
            (PageSettles RoutesPage (PageRejected "Failed to fetch")) =
          Some (after [PollSettles 0 (JsonData refresh_request);
                       PageSettles RoutesPage (PageRejected "Failed to fetch")]))
    as H1 by (vm_compute; reflexivity).
  destruct (H _ _ _ H1) as (now & data & E & _); [by vm_compute|].
  discriminate E.
Qed.

(** C8, amended: an event of background sync reloads the page exactly
    when it is a successful poll response on the routes page whose
    payload has [routes_updated], or a content-only refresh whose page
    fetch failed with an exception (the fallback of
    [updateRoutesContent] and [updateStudentsContent]); in the first
    case the reload happens with the document as it was: no delta was
    applied and no content refresh was started. *)
Theorem hard_refresh_cases (w : World) (e : Event) (w' : World) :
  step w e = Some w' →
  (reloads w' ≠ reloads w ↔ structural_change w e || refresh_failed e = true) ∧
  (if structural_change w e
   then reloads w' = S (reloads w) ∧ doc w' = doc w ∧
        page_inflight w' = page_inflight w
   else True).
Proof.
  intros H. destruct e as [| |now o|k o|id|now routeId button|i o].
  - unfold_step. crush; finish.
  - unfold_step. crush; finish.
  - unfold step in H. destruct (poll_inflight w) as [|n] eqn:Hn; [done|].
    simplify_eq.
    unfold RealTimeUpdater.poll_resume, RealTimeUpdater.poll_try.
    destruct o as [err| |err|data]; simpl.
    1-3: unfold_step; crush; finish.
    pose proof (handleSyncData_reloads now data (set_poll_inflight n w)) as Hr.
    simpl in Hr. destruct (success data); simpl.
    + set (w1 := RealTimeUpdater.handleSyncData _ _ _) in *.
      rewrite orb_false_r.
      assert (∀ u, reloads (RealTimeUpdater.poll_schedule
                (set_upd (set_lastUpdate (timestamp data) (upd w1)) u)) = reloads u
              ∧ doc (RealTimeUpdater.poll_schedule
                (set_upd (set_lastUpdate (timestamp data) (upd w1)) u)) = doc u
              ∧ page_inflight (RealTimeUpdater.poll_schedule
                (set_upd (set_lastUpdate (timestamp data) (upd w1)) u))
                = page_inflight u) as Hs.
      { intros u. unfold_step. crush. }
      destruct (Hs w1) as (-> & -> & ->).
      destruct (String.eqb _ _ && routes_updated data).
      * destruct Hr as (-> & -> & ->). finish.
      * rewrite Hr. simpl. finish.
    + unfold_step. crush; finish.
  - unfold_step. destruct (remove_first k (page_inflight w)); [|done].
    simpl in H. destruct o; crush; finish.
  - unfold_step. destruct (find _ _) as [t|]; [|done]. simpl in H.
    destruct (callback t); crush; finish.
  - unfold_step. destruct (heap (doc w) !! button); [|done]. simpl in H.
    crush; finish.
  - unfold_step. destruct (posts w !! i) as [[r b]|]; [|done]. simpl in H.
    destruct o; crush; finish.
Qed.

Lemma hard_refresh_cases_witness :
  reloads (after [PollSettles 0 (JsonData routes_updated_payload)]) =
    S (reloads fresh_routes_page) ∧
  doc (after [PollSettles 0 (JsonData routes_updated_payload)]) =
    doc fresh_routes_page ∧
  page_inflight (after [PollSettles 0 (JsonData routes_updated_payload)]) =
    page_inflight fresh_routes_page.
Proof.
  apply (hard_refresh_cases fresh_routes_page
           (PollSettles 0 (JsonData routes_updated_payload))
           (after [PollSettles 0 (JsonData routes_updated_payload)])).
  vm_compute; reflexivity.
Defined.

(** ** The change guard and the patcher *)

(** [updateRouteData] reads neither the guard nor [lastUserAction] when
    it decides what to write: the document it leaves is a function of
    the document it finds and of the payload. *)
Lemma updateRouteData_ignores_guard now entries w g la :
  doc (RealTimeUpdater.updateRouteData now entries
         (set_recentUpdates g (set_lastUserAction la w))) =
  doc (RealTimeUpdater.updateRouteData now entries w).
Proof. by rewrite !updateRouteData_doc. Qed.


(** ** The polling loop *)

Lemma poll_timers_app w extra :
  List.filter is_poll (timers w ++ extra) =
  poll_timers w ++ List.filter is_poll extra.
Proof. apply List.filter_app. Qed.

Lemma handleSyncData_loop_frame now data w :
  loop_frame w (RealTimeUpdater.handleSyncData now data w).
Proof.
  unfold loop_frame, poll_timers, RealTimeUpdater.handleSyncData,
    RealTimeUpdater.refreshRoutesPage, RealTimeUpdater.refreshStudentsPage,
    RealTimeUpdater.isUserAction.
  destruct (updateRouteData_frame now (default [] (routes data)) w)
    as (?&?&?&?&?&_).
  unfold_step. crush. all: split_and!; congruence.
Qed.

(** Every event but a poll response, a tick and the two calls leaves the
    loop alone. *)
Lemma other_events_loop_frame w e w' :
  step w e = Some w' →
  match e with
  | PageSettles _ _ | Click _ _ _ | PostSettles _ _ => loop_frame w w'
  | _ => True
  end.
Proof.
  intros H. unfold loop_frame, poll_timers.
  destruct e as [| |now o|k o|id|now routeId button|i o]; try done.
  - unfold_step. destruct (remove_first k (page_inflight w)); [|done].
    simpl in H. destruct o; crush.
    rewrite List.filter_app. simpl. by rewrite app_nil_r.
  - unfold_step. destruct (heap (doc w) !! button); [|done]. simpl in H. crush.
  - unfold_step. destruct (posts w !! i) as [[r b]|]; [|done]. simpl in H.
    destruct o; crush; rewrite List.filter_app; simpl; by rewrite app_nil_r.
Qed.

Lemma filter_comm {A} (f g : A → bool) (l : list A) :
  List.filter f (List.filter g l) = List.filter g (List.filter f l).
Proof.
  induction l as [|x l IH]; simpl; [done|].
  destruct (f x) eqn:Ef, (g x) eqn:Eg; simpl; rewrite ?Ef, ?Eg, IH; done.
Qed.

Lemma filter_length_le {A} (f : A → bool) (l : list A) :
  (length (List.filter f l) <= length l)%nat.
Proof.
  induction l as [|x l IH]; simpl; [done|]. destruct (f x); simpl; lia.
Qed.

Lemma Forall_filter_bool {A} (P : A → Prop) (f : A → bool) (l : list A) :
  Forall P l → Forall P (List.filter f l).
Proof.
  induction 1 as [|x l Hx Hl IH]; simpl; [done|].
  destruct (f x); [by constructor|done].
Qed.

Lemma find_some_elem {A} (f : A → bool) (l : list A) x :
  find f l = Some x → x ∈ l.
Proof.
  induction l as [|y l IH]; simpl; [done|].
  destruct (f y); [intros [= <-]; left|intros H; right; by apply IH].
Qed.

(** Cancelling the timer that every pending tick is leaves no tick. *)
Lemma clear_named_ticks (id : nat) (l : list Timer) :
  Forall (λ t, timer_id t = id) l →
  List.filter (λ t, negb (Nat.eqb (timer_id t) id)) l = [].
Proof.
  induction 1 as [|t l Ht Hl IH]; simpl; [done|].
  by rewrite Ht, Nat.eqb_refl.
Qed.

Lemma poll_timers_clear id w :
  poll_timers (clearTimeout id w) =
  List.filter (λ t, negb (Nat.eqb (timer_id t) id)) (poll_timers w).
Proof. unfold poll_timers, clearTimeout. simpl. apply filter_comm. Qed.

Lemma loop_frame_inv w w' : loop_frame w w' → loop_inv w → loop_inv w'.
Proof.
  intros (Hu & Hi & _ & Ht & Hn) (J1 & J2 & J3 & J4). unfold loop_inv.
  rewrite Hu, Hi, Ht. auto.
Qed.

Lemma startPolling_inv w :
  loop_inv w → clean_event w CallStartPolling = true →
  loop_inv (RealTimeUpdater.startPolling w).
Proof.
  intros J Hc. unfold clean_event in Hc. simpl in Hc.
  unfold RealTimeUpdater.startPolling.
  destruct (isPolling (upd w)) eqn:Hp; [done|].
  destruct J as (J1 & J2 & J3 & J4).
  apply Nat.eqb_eq in Hc. specialize (J3 Hp).
  unfold loop_inv, poll_timers in *. unfold_step. simpl.
  rewrite List.filter_app, J3, Hc. simpl. split_and!; try done; lia.
Qed.

Lemma stopPolling_inv w : loop_inv w → loop_inv (RealTimeUpdater.stopPolling w).
Proof.
  intros (J1 & J2 & J3 & J4). unfold RealTimeUpdater.stopPolling. simpl.
  destruct (RealTimeUpdater.truthy_timer (pollTimer (upd w))) as [id|] eqn:Ht.
  - assert (pollTimer (upd w) = Some id) as Hid.
    { by destruct (pollTimer (upd w)) as [[|k]|]; simplify_eq/=. }
    assert (poll_timers (clearTimeout id
              (set_upd (set_isPolling false (upd w)) w)) = []) as Hnil.
    { rewrite poll_timers_clear. apply clear_named_ticks.
      eapply Forall_impl; [exact J2|]. simpl. intros t [E _]. congruence. }
    unfold loop_inv. unfold poll_timers in *. simpl in *. rewrite Hnil.
    split_and!; try done. simpl. lia.
  - assert (poll_timers w = []) as Hnil.
    { destruct (poll_timers w) as [|t l]; [done|].
      apply Forall_cons in J2 as [[E Hz] _]. rewrite E in Ht.
      by destruct (timer_id t). }
    unfold loop_inv, poll_timers in *. simpl. rewrite Hnil in *.
    split_and!; try done.
Qed.

(** The [try] and [catch] of [poll] leave the loop as they found it. *)
Lemma poll_try_view now o w :
  let w1 := fst (RealTimeUpdater.poll_try now o w) in
  let w2 := match snd (RealTimeUpdater.poll_try now o w) with
            | Some err => RealTimeUpdater.poll_catch err w1
            | None => w1
            end in
  isPolling (upd w2) = isPolling (upd w) ∧
  pollTimer (upd w2) = pollTimer (upd w) ∧
  pollInterval (upd w2) = pollInterval (upd w) ∧
  poll_inflight w2 = poll_inflight w ∧ sent w2 = sent w ∧
  poll_timers w2 = poll_timers w ∧ (nextTimerId w ≠ O → nextTimerId w2 ≠ O).
Proof.
  unfold RealTimeUpdater.poll_try.
  destruct o as [err| |err|data]; simpl; try done.
  destruct (success data); simpl; [|done].
  destruct (handleSyncData_loop_frame now data w) as (Hu & Hi & Hs & Ht & Hn).
  unfold poll_timers in *. simpl. rewrite Hu. done.
Qed.

(** "Schedule next poll", seen from the loop. *)
Lemma poll_schedule_view w :
  let w' := RealTimeUpdater.poll_schedule w in
  isPolling (upd w') = isPolling (upd w) ∧
  poll_inflight w' = poll_inflight w ∧ sent w' = sent w ∧
  (nextTimerId w ≠ O → nextTimerId w' ≠ O) ∧
  if isPolling (upd w)
  then poll_timers w' =
         poll_timers w ++ [mkTimer (nextTimerId w) (pollInterval (upd w)) CbPoll] ∧
       pollTimer (upd w') = Some (nextTimerId w)
  else poll_timers w' = poll_timers w ∧ pollTimer (upd w') = pollTimer (upd w).
Proof.
  unfold RealTimeUpdater.poll_schedule, poll_timers, setTimeout.
  destruct (isPolling (upd w)) eqn:Hp; simpl; rewrite ?Hp; [|done].
  by rewrite List.filter_app.
Qed.

Lemma poll_resume_split now o w :
  RealTimeUpdater.poll_resume now o w =
  RealTimeUpdater.poll_schedule
    (match snd (RealTimeUpdater.poll_try now o w) with
     | Some err =>
         RealTimeUpdater.poll_catch err (fst (RealTimeUpdater.poll_try now o w))
     | None => fst (RealTimeUpdater.poll_try now o w)
     end).
Proof.
  unfold RealTimeUpdater.poll_resume.
  by destruct (RealTimeUpdater.poll_try now o w) as [w1 [err|]].
Qed.

Lemma poll_resume_inv now o n w :
  loop_inv w → poll_inflight w = S n →
  loop_inv (RealTimeUpdater.poll_resume now o (set_poll_inflight n w)).
Proof.
  intros (J1 & J2 & J3 & J4) Hn. rewrite Hn in J1.
  assert (n = O ∧ poll_timers w = []) as [-> Hnil].
  { destruct (poll_timers w); simpl in J1; [split; [lia|done]|lia]. }
  rewrite poll_resume_split.
  pose proof (poll_try_view now o (set_poll_inflight 0 w)) as V. simpl in V.
  set (w2 := match snd _ with Some _ => _ | None => _ end) in *.
  destruct V as (Vp & Vt & Vi & Vf & Vs & Vpt & Vn).
  pose proof (poll_schedule_view w2) as S. simpl in S.
  destruct S as (Sp & Sf & Ss & Sn & Sif).
  change (poll_timers (set_poll_inflight 0 w)) with (poll_timers w) in Vpt.
  unfold loop_inv. rewrite Sf, Vf, Sp. simpl.
  destruct (isPolling (upd w2)) eqn:Hp.
  - destruct Sif as [-> ->]. rewrite Vpt, Hnil. simpl.
    split_and!; [done| |done|auto]. repeat constructor. simpl. auto.
  - destruct Sif as [-> ->]. rewrite Vpt, Hnil. simpl. split_and!; auto.
Qed.

Lemma elem_of_poll_timers t w :
  t ∈ timers w → is_poll t = true → t ∈ poll_timers w.
Proof.
  intros Hin Hp. apply list_elem_of_In, List.filter_In.
  split; [by apply list_elem_of_In|done].
Qed.

Lemma fire_inv id w w' : loop_inv w → fire id w = Some w' → loop_inv w'.
Proof.
  intros (J1 & J2 & J3 & J4) H. unfold fire in H.
  destruct (find _ (timers w)) as [t|] eqn:Hf; [simpl in H|done].
  pose proof (find_some_elem _ _ _ Hf) as Hin.
  apply find_some_holds, Nat.eqb_eq in Hf.
  pose proof (poll_timers_clear id w) as Hc.
  destruct (is_poll t) eqn:Hp.
  - pose proof (elem_of_poll_timers _ _ Hin Hp) as Hpt.
    destruct (poll_timers w) as [|t' [|t'' l]] eqn:Hl; simpl in J1;
      [by apply elem_of_nil in Hpt| |lia].
    apply list_elem_of_singleton in Hpt as <-.
    destruct (isPolling (upd w)) eqn:Hpol; [|by specialize (J3 eq_refl)].
    simpl in Hc. rewrite Hf, Nat.eqb_refl in Hc. simpl in Hc.
    unfold is_poll in Hp. destruct (callback t); try done. simplify_eq.
    unfold loop_inv, poll_timers, run_callback, RealTimeUpdater.poll, fetch_sync,
      clearTimeout in *.
    simpl in *. rewrite Hpol. simpl. rewrite Hc. simpl. split_and!; try done; lia.
  - assert (loop_inv (clearTimeout id w)) as Jc.
    { unfold loop_inv. rewrite Hc. simpl. split_and!; try done.
      + pose proof (filter_length_le
          (λ t, negb (Nat.eqb (timer_id t) id)) (poll_timers w)). lia.
      + by apply Forall_filter_bool.
      + intros Hpol. by rewrite (J3 Hpol). }
    eapply loop_frame_inv; [|exact Jc]. simplify_eq.
    unfold loop_frame, poll_timers, is_poll in *. unfold_step.
    destruct (callback t); crush.
Qed.

Lemma loop_inv_step w e w' :
  loop_inv w → clean_event w e = true → step w e = Some w' → loop_inv w'.
Proof.
  intros J Hc H. pose proof (other_events_loop_frame w e w' H) as F.
  destruct e as [| |now o|k o|id|now routeId button|i o]; simpl in H.
  - simplify_eq. by apply startPolling_inv.
  - simplify_eq. by apply stopPolling_inv.
  - destruct (poll_inflight w) eqn:Hn; [done|]. simplify_eq.
    by apply poll_resume_inv.
  - by eapply loop_frame_inv.
  - by eapply fire_inv.
  - by eapply loop_frame_inv.
  - by eapply loop_frame_inv.
Qed.

Lemma constructor_inv path d g la :
  loop_inv (RealTimeUpdater.constructor path d g la).
Proof.
  unfold RealTimeUpdater.constructor, RealTimeUpdater.init.
  destruct (String.eqb _ _).
  - apply startPolling_inv; [|done]. unfold loop_inv. simpl.
    split_and!; try done; lia.
  - apply stopPolling_inv. unfold loop_inv. simpl. split_and!; try done; lia.
Qed.

Lemma loop_inv_run es : ∀ w w',
  loop_inv w → restarts_clean w es = true → run w es = Some w' → loop_inv w'.
Proof.
  induction es as [|e es IH]; intros w w' J Hc H; simpl in *; [congruence|].
  apply andb_true_iff in Hc as [Hc1 Hc2].
  destruct (step w e) as [w1|] eqn:Hs; [simpl in H|done].
  apply (IH w1 w'); [by eapply loop_inv_step|done|done].
Qed.

Lemma startPolling_idempotent w :
  RealTimeUpdater.startPolling (RealTimeUpdater.startPolling w) =
  RealTimeUpdater.startPolling w.
Proof.
  unfold RealTimeUpdater.startPolling at 1.
  assert (isPolling (upd (RealTimeUpdater.startPolling w)) = true) as ->; [|done].
  unfold RealTimeUpdater.startPolling. unfold_step. crush.
Qed.

(** C5, as stated, fails: the page loads and polls; [stopPolling] and
    [startPolling] are called before the first fetch has settled; two
    fetches are in flight. *)
Lemma two_fetches_in_flight : ¬ at_most_one_fetch_in_flight.
Proof.
  intros H.
  assert (run (RealTimeUpdater.constructor "/routes" empty_document no_globals None)
            [CallStopPolling; CallStartPolling] =
          Some (after [CallStopPolling; CallStartPolling]))
    as H1 by (vm_compute; reflexivity).
  specialize (H _ _ _ _ _ _ H1). vm_compute in H. lia.
Qed.

(** C5, amended: [startPolling] on a running poller changes nothing, so
    calling it twice is calling it once; and along every execution in
    which [startPolling] is not called on a stopped poller whose last
    fetch is still in flight, at most one fetch is in flight, and a
    fetch in flight and a pending tick never coexist: the next tick is
    scheduled only once the fetch has settled. *)
Theorem start_idempotent_one_fetch_in_flight (path : string) (d : Document)
    (g : Globals) (la : option Z) (es : list Event) (w : World) :
  restarts_clean (RealTimeUpdater.constructor path d g la) es = true →
  run (RealTimeUpdater.constructor path d g la) es = Some w →
  (if isPolling (upd w) then RealTimeUpdater.startPolling w = w else True) ∧
  RealTimeUpdater.startPolling (RealTimeUpdater.startPolling w) =
    RealTimeUpdater.startPolling w ∧
  (poll_inflight w <= 1)%nat ∧
  (poll_inflight w + length (poll_timers w) <= 1)%nat.
Proof.
  intros Hc H.
  destruct (loop_inv_run es _ _ (constructor_inv path d g la) Hc H) as (J1 & _).
  split; [|split; [apply startPolling_idempotent|lia]].
  unfold RealTimeUpdater.startPolling. by destruct (isPolling (upd w)).
Qed.

Lemma start_idempotent_one_fetch_in_flight_witness :
  (poll_inflight (after [CallStartPolling; PollSettles 0 ResponseNotOk;
                         CallStartPolling; TimerFires 2; CallStartPolling])
   <= 1)%nat.
Proof.
  apply (start_idempotent_one_fetch_in_flight "/routes" empty_document no_globals
           None [CallStartPolling; PollSettles 0 ResponseNotOk;
                 CallStartPolling; TimerFires 2; CallStartPolling]);
    vm_compute; reflexivity.
Defined.

(** ** Stopping *)


Lemma stopPolling_view w :
  let w' := RealTimeUpdater.stopPolling w in
  isPolling (upd w') = false ∧ named_timer w' = None ∧
  sent w' = sent w ∧ poll_inflight w' = poll_inflight w ∧
  Forall (λ t, named_timer w ≠ Some (timer_id t)) (timers w').
Proof.
  unfold RealTimeUpdater.stopPolling, named_timer. simpl.
  destruct (RealTimeUpdater.truthy_timer (pollTimer (upd w))) as [id|] eqn:Ht;
    simpl.
  - split_and!; try done. apply Forall_forall. intros t Hin E.
    apply list_elem_of_In, List.filter_In in Hin as [_ Hne].
    simplify_eq. by rewrite Nat.eqb_refl in Hne.
  - rewrite Ht. split_and!; try done. by apply Forall_forall.
Qed.

(** A stopped poller stays stopped and issues no fetch, whatever happens
    short of a call of [startPolling]. *)
Lemma stopped_step w e w' :
  isPolling (upd w) = false → is_start e = false → step w e = Some w' →
  isPolling (upd w') = false ∧ sent w' = sent w ∧
  (poll_inflight w' <= poll_inflight w)%nat.
Proof.
  intros Hp He H. pose proof (other_events_loop_frame w e w' H) as F.
  destruct e as [| |now o|k o|id|now routeId button|i o]; simpl in H; try done.
  - simplify_eq. destruct (stopPolling_view w) as (-> & _ & -> & -> & _). done.
  - destruct (poll_inflight w) as [|n] eqn:Hn; [done|]. simplify_eq.
    rewrite poll_resume_split.
    pose proof (poll_try_view now o (set_poll_inflight n w)) as V. simpl in V.
    set (w2 := match snd _ with Some _ => _ | None => _ end) in *.
    destruct V as (Vp & _ & _ & Vf & Vs & _).
    destruct (poll_schedule_view w2) as (-> & -> & -> & _).
    rewrite Vp, Vf, Vs. simpl. split_and!; [done|done|lia].
  - destruct F as (-> & -> & -> & _). done.
  - unfold fire in H. destruct (find _ _) as [t|]; [simpl in H|done].
    simplify_eq. unfold_step. destruct (callback t); simpl; rewrite ?Hp; crush.
  - destruct F as (-> & -> & -> & _). done.
  - destruct F as (-> & -> & -> & _). done.
Qed.

Lemma stopped_run es : ∀ w w',
  isPolling (upd w) = false → no_start es = true → run w es = Some w' →
  isPolling (upd w') = false ∧ sent w' = sent w ∧
  (poll_inflight w' <= poll_inflight w)%nat.
Proof.
  induction es as [|e es IH]; intros w w' Hp Hn H; simpl in *.
  - by simplify_eq.
  - apply andb_true_iff in Hn as [He Hn]. apply negb_true_iff in He.
    destruct (step w e) as [w1|] eqn:Hs; [simpl in H|done].
    destruct (stopped_step _ _ _ Hp He Hs) as (Hp1 & Hs1 & Hi1).
    destruct (IH _ _ Hp1 Hn H) as (? & ? & ?). split_and!; [done|congruence|lia].
Qed.



(** With the loop invariant, stopping leaves no tick pending at all. *)
Lemma stop_leaves_no_tick w :
  loop_inv w → poll_timers (RealTimeUpdater.stopPolling w) = [].
Proof.
  intros J. destruct (stopPolling_inv w J) as (_ & _ & J3 & _).
  apply J3. by destruct (stopPolling_view w) as (-> & _).
Qed.

(** ** One request per button *)

Lemma heap_ok_refl h : heap_ok h h.
Proof. intros b e H. eauto. Qed.

Lemma heap_ok_trans h1 h2 h3 : heap_ok h1 h2 → heap_ok h2 h3 → heap_ok h1 h3.
Proof.
  intros H12 H23 b e H. destruct (H12 _ _ H) as (e2 & H2 & P2).
  destruct (H23 _ _ H2) as (e3 & H3 & P3). exists e3. split; [done|congruence].
Qed.

Lemma heap_ok_app h es : heap_ok h (h ++ es).
Proof.
  intros b e H. exists e. split; [|done]. rewrite lookup_app_l; [done|].
  by eapply lookup_lt_Some.
Qed.

Lemma heap_ok_alter (f : Element → Element) i h :
  (∀ e, processing (f e) = processing e) → heap_ok h (alter f i h).
Proof.
  intros Hf b e H. rewrite list_lookup_alter. case_decide; [subst|eauto].
  rewrite H. simpl. eauto.
Qed.

Lemma heap_ok_patch d entries :
  heap_ok (heap d) (heap (fst (patch_routes d entries))).
Proof.
  intros b e H.
  destruct (patch_routes_lookup d entries d (same_frame_refl d)) as [_ L].
  rewrite L, H. simpl. eexists. split; [done|]. apply erun_rest.
Qed.

Lemma timers_ok_refl l : timers_ok l l.
Proof. by intros b. Qed.

Lemma timers_ok_trans l1 l2 l3 :
  timers_ok l1 l2 → timers_ok l2 l3 → timers_ok l1 l3.
Proof. intros H12 H23 b. specialize (H12 b). specialize (H23 b). lia. Qed.

Lemma timers_ok_filter (f : Timer → bool) l : timers_ok l (List.filter f l).
Proof.
  intros b. unfold reenables_of. rewrite filter_comm. apply filter_length_le.
Qed.

Lemma timers_ok_app l t :
  (∀ b, is_reenable b t = false) → timers_ok l (l ++ [t]).
Proof.
  intros Ht b. unfold reenables_of. rewrite List.filter_app. simpl.
  by rewrite Ht, app_nil_r.
Qed.

Lemma quiet_refl w : quiet w w.
Proof. split_and!; [done|apply timers_ok_refl|apply heap_ok_refl]. Qed.

Lemma quiet_trans w1 w2 w3 : quiet w1 w2 → quiet w2 w3 → quiet w1 w3.
Proof.
  intros (P12 & T12 & H12) (P23 & T23 & H23). split_and!.
  - congruence.
  - by eapply timers_ok_trans.
  - by eapply heap_ok_trans.
Qed.

Lemma quiet_inv w w' : quiet w w' → button_inv w → button_inv w'.
Proof.
  intros (Hp & Ht & Hh) K b. destruct (K b) as [K1 K2]. specialize (Ht b).
  unfold posts_of in *. rewrite Hp. split; [lia|].
  intros Hge. destruct K2 as (e & He & Pe); [lia|].
  destruct (Hh _ _ He) as (e' & He' & Pe'). exists e'. split; [done|congruence].
Qed.

Ltac quiet_tac :=
  unfold quiet; split_and?; simpl;
  first [ done | apply timers_ok_refl | apply heap_ok_refl
        | by apply timers_ok_app | apply timers_ok_filter | apply heap_ok_app
        | idtac ].

Lemma updateRouteData_quiet now entries w :
  quiet w (RealTimeUpdater.updateRouteData now entries w).
Proof.
  destruct (updateRouteData_frame now entries w) as (_&Ht&_&_&_&_&Hp&_).
  split_and!; [done|rewrite Ht; apply timers_ok_refl|].
  rewrite updateRouteData_doc. apply heap_ok_patch.
Qed.

Lemma handleSyncData_quiet now data w :
  quiet w (RealTimeUpdater.handleSyncData now data w).
Proof.
  unfold RealTimeUpdater.handleSyncData, RealTimeUpdater.refreshRoutesPage,
    RealTimeUpdater.refreshStudentsPage, RealTimeUpdater.isUserAction.
  pose proof (updateRouteData_quiet now (default [] (routes data)) w) as Q.
  unfold_step. crush; try apply quiet_refl.
  all: destruct Q as (Qp & Qt & Qh); quiet_tac.
Qed.

Lemma poll_resume_quiet now o w :
  quiet w (RealTimeUpdater.poll_resume now o w).
Proof.
  assert (∀ u, quiet u (RealTimeUpdater.poll_schedule u)) as Hs.
  { intros u. unfold RealTimeUpdater.poll_schedule, setTimeout.
    destruct (isPolling (upd u)); [|apply quiet_refl].
    split_and!; simpl; [done|by apply timers_ok_app|apply heap_ok_refl]. }
  rewrite poll_resume_split. eapply quiet_trans; [|apply Hs].
  unfold RealTimeUpdater.poll_try, RealTimeUpdater.poll_catch,
    RealTimeUpdater.showConnectionStatus, log.
  destruct o as [err| |err|data]; simpl.
  - quiet_tac.
  - apply quiet_refl.
  - quiet_tac.
  - destruct (success data); simpl; [|apply quiet_refl].
    apply (handleSyncData_quiet now data w).
Qed.

Lemma startPolling_quiet w : quiet w (RealTimeUpdater.startPolling w).
Proof.
  unfold RealTimeUpdater.startPolling.
  destruct (isPolling (upd w)); [apply quiet_refl|].
  unfold_step. simpl.
  split_and!; simpl; [done|by apply timers_ok_app|apply heap_ok_refl].
Qed.

Lemma stopPolling_quiet w : quiet w (RealTimeUpdater.stopPolling w).
Proof.
  unfold RealTimeUpdater.stopPolling. simpl.
  destruct (RealTimeUpdater.truthy_timer _); quiet_tac.
Qed.

Lemma content_resume_quiet k o w : quiet w (content_resume k o w).
Proof.
  unfold content_resume, content_catch, reload, log, setTimeout.
  destruct o as [err| |err|[trs|]]; simpl; [quiet_tac..| |quiet_tac].
  destruct (tbody (doc w)); quiet_tac.
Qed.

Lemma swap_rows_quiet trs w : quiet w (swap_rows trs w).
Proof.
  unfold swap_rows. destruct (tbody (doc w)); [|apply quiet_refl].
  destruct (clone_rows _ trs) as [rs es].
  split_and!; simpl; [done|apply timers_ok_refl|apply heap_ok_app].
Qed.

Lemma clearTimeout_quiet id w : quiet w (clearTimeout id w).
Proof.
  split_and!; simpl; [done|apply timers_ok_filter|apply heap_ok_refl].
Qed.

Lemma filter_delete_hit {A} (f : A → bool) (l : list A) i x :
  l !! i = Some x → f x = true →
  S (length (List.filter f (delete i l))) = length (List.filter f l).
Proof.
  revert i. induction l as [|y l IH]; intros [|i] H Hx; simplify_eq/=.
  - by rewrite Hx.
  - destruct (f y); simpl; by rewrite (IH i).
Qed.

Lemma filter_delete_miss {A} (f : A → bool) (l : list A) i x :
  l !! i = Some x → f x = false →
  List.filter f (delete i l) = List.filter f l.
Proof.
  revert i. induction l as [|y l IH]; intros [|i] H Hx; simplify_eq/=.
  - by rewrite Hx.
  - by rewrite (IH i).
Qed.

Lemma filter_filter_hit {A} (f g : A → bool) (l : list A) x :
  x ∈ l → f x = true → g x = false →
  (S (length (List.filter f (List.filter g l))) <= length (List.filter f l))%nat.
Proof.
  induction 1 as [x l|x y l Hin IH]; intros Hf Hg; simpl.
  - rewrite Hf, Hg. simpl.
    pose proof (filter_length_le g (List.filter f l)) as Hle.
    rewrite filter_comm in Hle. lia.
  - specialize (IH Hf Hg).
    destruct (g y) eqn:Egy, (f y) eqn:Efy; simpl; rewrite ?Efy; simpl; lia.
Qed.

Lemma busy_processing e : processing e = Some "true" → busy e = true.
Proof. unfold busy. intros ->. simpl. apply orb_true_r. Qed.

(** An accepted click: the button was idle, is busy now, and one request
    is in flight for it. *)
Lemma click_inv now routeId button w w' :
  button_inv w → cycleRouteStatus now routeId button w = Some w' →
  button_inv w'.
Proof.
  intros K H. unfold cycleRouteStatus in H.
  destruct (heap (doc w) !! button) as [e|] eqn:He; [simpl in H|done].
  destruct (busy e) eqn:Hb.
  { simplify_eq. eapply quiet_inv; [|done]. unfold log. quiet_tac. }
  simplify_eq.
  assert (length (posts_of button w) +
          length (reenables_of button (timers w)) = 0)%nat as Hz.
  { destruct (K button) as [_ K2'].
    destruct (Nat.eq_dec (length (posts_of button w) +
                length (reenables_of button (timers w)))%nat 0%nat) as [|Hnz];
      [done|].
    destruct K2' as (e' & He' & Pe'); [lia|]. simplify_eq.
    by rewrite (busy_processing _ Pe') in Hb. }
  intros b. destruct (K b) as [K1 K2].
  unfold posts_of, trackUserUpdate, update_element in *. simpl.
  destruct (trackUserUpdate_defined (globals w)); simpl;
    rewrite List.filter_app; simpl;
    (destruct (Nat.eqb_spec button b) as [->|Hne];
     [ rewrite length_app; simpl; split; [lia|]; intros _;
       rewrite !list_lookup_alter_eq, He; simpl; eauto
     | rewrite app_nil_r; split; [done|]; intros Hge;
       destruct (K2 Hge) as (e' & He' & Pe'); exists e';
       by rewrite !list_lookup_alter_ne ]).
Qed.

(** The promise chain touches the button's class, status, text and
    [disabled], never its [processing] flag, and ends by scheduling the
    re-enable after 300 ms. *)
Lemma settle_chain_view button o w :
  let w' := settle_chain button o w in
  posts w' = posts w ∧
  timers w' = timers w ++ [mkTimer (nextTimerId w) 300 (CbReenable button)] ∧
  heap_ok (heap (doc w)) (heap (doc w')) ∧
  length (heap (doc w')) = length (heap (doc w)).
Proof.
  assert (∀ st, heap_ok (heap (doc w))
            (alter (show_reply st) button
               (alter hideLoadingState button (heap (doc w))))) as Hh.
  { intros st. apply (heap_ok_trans _ (alter hideLoadingState button (heap (doc w))));
      by apply heap_ok_alter. }
  unfold settle_chain, cycle_finally, cycle_catch, cycle_then, showNotification,
    update_element, setTimeout, log.
  destruct o as [err|err|data]; simpl.
  - destruct (showNotification_defined (globals w)); simpl;
      rewrite length_alter; split_and!; try done; by apply heap_ok_alter.
  - destruct (showNotification_defined (globals w)); simpl;
      rewrite length_alter; split_and!; try done; by apply heap_ok_alter.
  - destruct (r_success data); simpl.
    + destruct (audioSystem_defined (globals w)); simpl;
        destruct (truthy_message (r_message data)); simpl;
        destruct (showNotification_defined (globals w)); simpl;
        rewrite !length_alter; split_and!; try done; apply Hh.
    + destruct (showNotification_defined (globals w)); simpl;
        rewrite length_alter; split_and!; try done; by apply heap_ok_alter.
Qed.

Lemma cycle_settle_chain i o w :
  cycle_settle i o w =
  match posts w !! i with
  | Some (routeId, button) =>
      Some (settle_chain button o (set_posts (delete i (posts w)) w))
  | None => None
  end.
Proof.
  unfold cycle_settle, settle_chain.
  destruct (posts w !! i) as [[routeId button]|]; [simpl|done].
  by destruct o.
Qed.

Lemma reenables_snoc b l id d button :
  length (reenables_of b (l ++ [mkTimer id d (CbReenable button)])) =
  (length (reenables_of b l) + if Nat.eqb button b then 1 else 0)%nat.
Proof.
  unfold reenables_of. rewrite List.filter_app, length_app. f_equal.
  simpl. unfold is_reenable. simpl. by destruct (Nat.eqb button b).
Qed.

Lemma settle_inv i o w w' :
  button_inv w → cycle_settle i o w = Some w' → button_inv w'.
Proof.
  intros K H. rewrite cycle_settle_chain in H.
  destruct (posts w !! i) as [[routeId button]|] eqn:Hi; [|done]. simplify_eq.
  set (w0 := set_posts (delete i (posts w)) w).
  destruct (settle_chain_view button o w0) as (Hp & Ht & Hh & _).
  change (posts w0) with (delete i (posts w)) in Hp.
  change (timers w0) with (timers w) in Ht.
  change (heap (doc w0)) with (heap (doc w)) in Hh.
  intros b. destruct (K b) as [K1 K2]. unfold posts_of in *.
  rewrite Hp, Ht, reenables_snoc.
  destruct (Nat.eqb_spec button b) as [->|Hne].
  - pose proof (filter_delete_hit (λ p, Nat.eqb (snd p) b) _ _ _ Hi
                  (Nat.eqb_refl b)) as Hd.
    split; [lia|]. intros _. destruct K2 as (e & He & Pe); [lia|].
    destruct (Hh _ _ He) as (e' & He' & Pe'). exists e'. split; [done|congruence].
  - rewrite (filter_delete_miss (λ p, Nat.eqb (snd p) b) _ _ _ Hi);
      [|by apply Nat.eqb_neq].
    split; [lia|]. intros Hge. destruct K2 as (e & He & Pe); [lia|].
    destruct (Hh _ _ He) as (e' & He' & Pe'). exists e'. split; [done|congruence].
Qed.

Lemma fire_button_inv id w w' : button_inv w → fire id w = Some w' → button_inv w'.
Proof.
  intros K H. unfold fire in H.
  destruct (find _ (timers w)) as [t|] eqn:Hf; [simpl in H|done].
  pose proof (find_some_elem _ _ _ Hf) as Hin.
  apply find_some_holds, Nat.eqb_eq in Hf. simplify_eq.
  pose proof (quiet_inv _ _ (clearTimeout_quiet (timer_id t) w) K) as Kc.
  destruct (callback t) as [| |k trs|button] eqn:Hcb; simpl.
  - eapply quiet_inv; [|exact Kc]. unfold RealTimeUpdater.poll, fetch_sync.
    destruct (negb _); quiet_tac.
  - eapply quiet_inv; [|exact Kc]. unfold hide_indicator.
    destruct (indicator _); quiet_tac.
  - eapply quiet_inv; [|exact Kc]. apply swap_rows_quiet.
  - intros b. destruct (Kc b) as [K1 K2]. destruct (K b) as [K1' _].
    unfold update_element, posts_of in *. simpl in *.
    destruct (Nat.eqb_spec button b) as [->|Hne].
    + pose proof (filter_filter_hit (is_reenable b)
        (λ t0, negb (Nat.eqb (timer_id t0) (timer_id t))) (timers w) t Hin) as Hlt.
      unfold reenables_of in *. unfold is_reenable at 1 in Hlt. rewrite Hcb in Hlt.
      rewrite !Nat.eqb_refl in Hlt. specialize (Hlt eq_refl eq_refl).
      split; [lia|]. intros Hge. lia.
    + split; [done|]. intros Hge. destruct (K2 Hge) as (e & He & Pe).
      exists e. by rewrite list_lookup_alter_ne.
Qed.

Lemma button_inv_step w e w' : button_inv w → step w e = Some w' → button_inv w'.
Proof.
  intros K H. destruct e as [| |now o|k o|id|now routeId button|i o]; simpl in H.
  - simplify_eq. eapply quiet_inv; [apply startPolling_quiet|done].
  - simplify_eq. eapply quiet_inv; [apply stopPolling_quiet|done].
  - destruct (poll_inflight w) as [|n]; [done|]. simplify_eq.
    eapply quiet_inv; [apply poll_resume_quiet|].
    eapply quiet_inv; [|exact K]. quiet_tac.
  - destruct (remove_first k (page_inflight w)) as [l|]; [simpl in H|done].
    simplify_eq. eapply quiet_inv; [apply content_resume_quiet|].
    eapply quiet_inv; [|exact K]. quiet_tac.
  - by eapply fire_button_inv.
  - by eapply click_inv.
  - by eapply settle_inv.
Qed.

Lemma constructor_button_inv path d g la :
  button_inv (RealTimeUpdater.constructor path d g la).
Proof.
  unfold RealTimeUpdater.constructor, RealTimeUpdater.init.
  set (w0 := mkWorld _ _ _ _ _ _ _ _ _ _ _ _ _ _ _).
  assert (button_inv w0) as K0.
  { intros b. unfold posts_of, reenables_of. simpl. split; [lia|]. lia. }
  destruct (String.eqb _ _).
  - eapply quiet_inv; [apply startPolling_quiet|].
    eapply quiet_inv; [|exact K0]. unfold log. quiet_tac.
  - eapply quiet_inv; [apply stopPolling_quiet|].
    eapply quiet_inv; [|exact K0]. unfold log. quiet_tac.
Qed.

Lemma button_inv_run es : ∀ w w',
  button_inv w → run w es = Some w' → button_inv w'.
Proof.
  induction es as [|e es IH]; intros w w' K H; simpl in *; [by simplify_eq|].
  destruct (step w e) as [w1|] eqn:Hs; [simpl in H|done].
  apply (IH w1 w'); [by eapply button_inv_step|done].
Qed.

Lemma posts_of_elem r b w :
  (r, b) ∈ posts w → (1 <= length (posts_of b w))%nat.
Proof.
  intros Hin. assert ((r, b) ∈ posts_of b w) as Hf.
  { apply list_elem_of_In, List.filter_In. split; [by apply list_elem_of_In|].
    simpl. apply Nat.eqb_refl. }
  destruct (posts_of b w); [by apply elem_of_nil in Hf|simpl; lia].
Qed.

(** C10: in every world the page can reach, each button has at most one
    cycle-status request in flight, and while it has one the button is
    busy; a call of [cycleRouteStatus] on a busy button (disabled, or
    its processing flag set) changes nothing but the console: no
    request, no guard mark, no [lastUserAction], no change to the
    document; and when the request of a button settles, whatever the
    outcome, the re-enable is scheduled 300 ms later, the button stays
    busy until then, and the re-enable makes it idle again. *)
Theorem one_request_per_button (path : string) (d : Document) (g : Globals)
    (la : option Z) (es : list Event) (w : World) :
  run (RealTimeUpdater.constructor path d g la) es = Some w →
  (∀ b, (length (posts_of b w) <= 1)%nat) ∧
  (∀ r b, (r, b) ∈ posts w →
     ∃ e, heap (doc w) !! b = Some e ∧ busy e = true) ∧
  (∀ now r b e, heap (doc w) !! b = Some e → busy e = true →
     step w (Click now r b) =
       Some (log "Button click ignored - already processing" w)) ∧
  (∀ i o r b, posts w !! i = Some (r, b) →
     ∃ w', step w (PostSettles i o) = Some w' ∧
       timers w' = timers w ++ [mkTimer (nextTimerId w) 300 (CbReenable b)] ∧
       (∃ e, heap (doc w') !! b = Some e ∧ busy e = true) ∧
       (∃ e, heap (doc (run_callback (CbReenable b) w')) !! b = Some e ∧
             busy e = false)).
Proof.
  intros H.
  pose proof (button_inv_run es _ _ (constructor_button_inv path d g la) H) as K.
  split_and!.
  - intros b. destruct (K b) as [K1 _]. lia.
  - intros r b Hin. apply posts_of_elem in Hin. destruct (K b) as [_ K2].
    destruct K2 as (e & He & Pe); [lia|]. exists e. split; [done|].
    by apply busy_processing.
  - intros now r b e He Hb. simpl. unfold cycleRouteStatus. rewrite He. simpl.
    by rewrite Hb.
  - intros i o r b Hi.
    assert (step w (PostSettles i o) =
            Some (settle_chain b o (set_posts (delete i (posts w)) w))) as Hs.
    { simpl. by rewrite cycle_settle_chain, Hi. }
    eexists. split; [exact Hs|].
    pose proof (button_inv_step _ _ _ K Hs) as K'.
    destruct (settle_chain_view b o (set_posts (delete i (posts w)) w))
      as (_ & Ht & _ & _).
    change (timers (set_posts (delete i (posts w)) w)) with (timers w) in Ht.
    change (nextTimerId (set_posts (delete i (posts w)) w))
      with (nextTimerId w) in Ht.
    split; [exact Ht|].
    destruct (K' b) as [_ K2]. destruct K2 as (e & He & Pe).
    { rewrite Ht, reenables_snoc, Nat.eqb_refl. lia. }
    split; [exists e; split; [done|by apply busy_processing]|].
    exists (reenable e). split; [|done].
    set (w' := settle_chain b o _) in *.
    change (heap (doc (run_callback (CbReenable b) w')))
      with (alter reenable b (heap (doc w'))).
    by rewrite list_lookup_alter_eq, He.
Qed.

Lemma one_request_per_button_witness :
  (length (posts_of 0 board_clicked) <= 1)%nat.
Proof.
  apply (one_request_per_button "/routes" board (mkGlobals true false false) None
           [Click 1000 "7" 0%nat] board_clicked).
  vm_compute; reflexivity.
Defined.

(** * Further properties of the code *)

(** ** Which pages poll *)

Lemma getCurrentPage_routes path :
  RealTimeUpdater.getCurrentPage path = "routes" ↔
  Js.includes "/routes" path = true.
Proof.
  unfold RealTimeUpdater.getCurrentPage.
  destruct (Js.includes "/routes" path); [done|].
  repeat (destruct (Js.includes _ path); [done|]). done.
Qed.

(** Polling is a matter of the routes page alone.  On a page whose path
    contains "/routes" the constructor starts the loop and the first
    request leaves at once, asking for everything since 0.  On any other
    page the poller is created stopped, and as long as nobody calls
    [startPolling] it never sends a request. *)
Theorem polling_only_on_routes_page (path : string) (d : Document)
    (g : Globals) (la : option Z) (es : list Event) (w : World) :
  no_start es = true →
  run (RealTimeUpdater.constructor path d g la) es = Some w →
  if Js.includes "/routes" path
  then isPolling (upd (RealTimeUpdater.constructor path d g la)) = true ∧
       sent (RealTimeUpdater.constructor path d g la) = [("routes", Some 0)]
  else isPolling (upd w) = false ∧ sent w = [] ∧ poll_inflight w = O.
Proof.
  intros Hn H. pose proof (getCurrentPage_routes path) as Hr.
  unfold RealTimeUpdater.constructor, RealTimeUpdater.init in *. simpl in *.
  destruct (Js.includes "/routes" path).
  - rewrite (proj2 Hr eq_refl). simpl. unfold_step. by simpl.
  - destruct (String.eqb_spec (RealTimeUpdater.getCurrentPage path) "routes")
      as [E|_]; [by apply Hr in E|].
    set (w0 := log _ _) in *.
    destruct (stopPolling_view w0) as (Hp & _ & Hs & Hi & _).
    destruct (stopped_run es _ _ Hp Hn H) as (? & ? & ?).
    rewrite Hi in *. rewrite Hs in *. simpl in *. split_and!; [done|done|lia].
Qed.

Lemma polling_only_on_routes_page_witness :
  sent (default fresh_routes_page
          (run (RealTimeUpdater.constructor "/students" empty_document no_globals
                  None) [CallStopPolling; CallStopPolling])) = [].
Proof.
  apply (polling_only_on_routes_page "/students" empty_document no_globals None
           [CallStopPolling; CallStopPolling]); vm_compute; reflexivity.
Defined.

(** ** What a request asks for *)

Lemma handleSyncData_frame now data w :
  let w' := RealTimeUpdater.handleSyncData now data w in
  upd w' = upd w ∧ sent w' = sent w ∧ indicator (doc w') = indicator (doc w) ∧
  lastUserAction w' = lastUserAction w ∧ posts w' = posts w ∧
  recentUpdates w' = recentUpdates w.
Proof.
  unfold RealTimeUpdater.handleSyncData, RealTimeUpdater.refreshRoutesPage,
    RealTimeUpdater.refreshStudentsPage, RealTimeUpdater.isUserAction.
  destruct (updateRouteData_frame now (default [] (routes data)) w)
    as (?&?&?&?&?&?&?&?&?&?&?).
  pose proof (updateRouteData_doc now (default [] (routes data)) w) as Hd.
  destruct (patch_routes_lookup (doc w) (default [] (routes data)) (doc w)
              (same_frame_refl _)) as [(_ & _ & Hi & _) _].
  rewrite <- Hd in Hi.
  unfold_step. crush.
Qed.



(** ** The connection indicator *)

Lemma poll_resume_indicator (now : Z) (o : PollOutcome) (w : World) :
  let w' := RealTimeUpdater.poll_resume now o w in
  if rejected o
  then indicator (doc w') = Some disconnected_indicator
  else indicator (doc w') = indicator (doc w) ∧
       (match o with
        | JsonData data => if success data then True else console w' = console w
        | _ => console w' = console w
        end).
Proof.
  intros w'. subst w'. rewrite poll_resume_split.
  assert (∀ u, indicator (doc (RealTimeUpdater.poll_schedule u)) =
               indicator (doc u) ∧
               console (RealTimeUpdater.poll_schedule u) = console u) as Hs.
  { intros u. unfold RealTimeUpdater.poll_schedule, setTimeout.
    by destruct (isPolling (upd u)). }
  unfold RealTimeUpdater.poll_try.
  destruct o as [err| |err|data]; simpl.
  - by destruct (Hs (RealTimeUpdater.poll_catch err w)) as [-> _].
  - by destruct (Hs w) as [-> ->].
  - by destruct (Hs (RealTimeUpdater.poll_catch err w)) as [-> _].
  - destruct (success data); simpl.
    + destruct (Hs (set_upd (set_lastUpdate (timestamp data)
         (upd (RealTimeUpdater.handleSyncData now data w)))
         (RealTimeUpdater.handleSyncData now data w))) as [-> _]. simpl.
      by destruct (handleSyncData_frame now data w) as (_ & _ & -> & _).
    + by destruct (Hs w) as [-> ->].
Qed.



Lemma step_keeps_reconnecting w e w' :
  shows_reconnecting w = true → is_start e = false → step w e = Some w' →
  shows_reconnecting w' = true.
Proof.
  intros Hr He H. unfold shows_reconnecting in *.
  destruct e as [| |now o|k o|id|now routeId button|i o]; simpl in H; try done.
  - simplify_eq. unfold_step. crush.
  - destruct (poll_inflight w) as [|n]; [done|]. simplify_eq.
    pose proof (poll_resume_indicator now o (set_poll_inflight n w)) as Hi.
    simpl in Hi. destruct (rejected o).
    + by rewrite Hi.
    + destruct Hi as [-> _]. done.
  - unfold_step. destruct (remove_first k (page_inflight w)); [|done].
    simpl in H. destruct o; crush.
  - unfold_step. destruct (find _ _) as [t|]; [|done]. simpl in H.
    destruct (callback t); crush.
  - unfold_step. destruct (heap (doc w) !! button); [|done]. simpl in H. crush.
  - unfold_step. destruct (posts w !! i) as [[r b]|]; [|done]. simpl in H.
    destruct o; crush.
Qed.

(** Nothing but [startPolling] ever shows "Connected": once a failed
    tick has put "Reconnecting..." into the indicator, it stays there
    through every later event, successful polls included, until
    [startPolling] is called on a stopped poller. *)
Theorem reconnecting_is_sticky (w : World) (es : list Event) (w' : World) :
  shows_reconnecting w = true → no_start es = true → run w es = Some w' →
  shows_reconnecting w' = true.
Proof.
  revert w. induction es as [|e es IH]; intros w Hr Hn H; simpl in *.
  - by simplify_eq.
  - apply andb_true_iff in Hn as [He Hn]. apply negb_true_iff in He.
    destruct (step w e) as [w1|] eqn:Hs; [simpl in H|done].
    apply (IH w1); [by eapply step_keeps_reconnecting|done|done].
Qed.

Lemma reconnecting_is_sticky_witness :
  shows_reconnecting
    (after [PollSettles 0 (FetchRejected "Failed to fetch"); TimerFires 2;
            PollSettles 1 (JsonData (stamp_only 9)); TimerFires 1]) = true.
Proof.
  apply (reconnecting_is_sticky
           (after [PollSettles 0 (FetchRejected "Failed to fetch")])
           [TimerFires 2; PollSettles 1 (JsonData (stamp_only 9)); TimerFires 1]);
    vm_compute; reflexivity.
Defined.

(** ** Which payloads start a content refresh *)



(** ** Clicks and replies *)

Lemma accepted_click_world now routeId button w e :
  heap (doc w) !! button = Some e → busy e = false →
  ∃ w', cycleRouteStatus now routeId button w = Some w' ∧
    posts w' = posts w ++ [(routeId, button)] ∧
    lastUserAction w' = Some now ∧
    heap (doc w') =
      <[button := showLoadingState (mark_processing e)]> (heap (doc w)) ∧
    timers w' = timers w ∧ upd w' = upd w ∧ reloads w' = reloads w ∧
    console w' = console w ∧ notifications w' = notifications w.
Proof.
  intros He Hb. unfold cycleRouteStatus. rewrite He. simpl. rewrite Hb.
  eexists. split; [done|].
  unfold trackUserUpdate, update_element.
  destruct (trackUserUpdate_defined _); simpl; split_and!; try done.
  all: apply list_eq; intros i; destruct (decide (button = i)) as [<-|Hne].
  all: try (rewrite !list_lookup_alter_eq, He; simpl;
            symmetry; apply list_lookup_insert_eq; by eapply lookup_lt_Some).
  all: by rewrite !list_lookup_alter_ne, list_lookup_insert_ne.
Qed.

(** An accepted click (the button is neither disabled nor processing)
    sends exactly one request, for this route and this button, stamps
    [lastUserAction] with the time of the click, and on the document
    touches that button only: it is marked processing, disabled and
    given the class "loading".  The status and the text the button
    shows are not changed by the click: they change when the reply
    arrives. *)
Theorem accepted_click_effects (now : Z) (routeId : string) (button : nat)
    (w : World) (e : Element) :
  heap (doc w) !! button = Some e → busy e = false →
  ∃ w' e', step w (Click now routeId button) = Some w' ∧
    posts w' = posts w ++ [(routeId, button)] ∧
    lastUserAction w' = Some now ∧
    heap (doc w') = <[button := e']> (heap (doc w)) ∧
    currentStatus e' = currentStatus e ∧ innerHTML e' = innerHTML e ∧
    processing e' = Some "true" ∧ disabled e' = true ∧
    className e' = Js.classList_add "loading" (className e).
Proof.
  intros He Hb.
  destruct (accepted_click_world now routeId button w e He Hb)
    as (w' & Hs & Hp & Hl & Hh & _).
  exists w', (showLoadingState (mark_processing e)). by split_and!.
Qed.

Lemma accepted_click_effects_witness :
  ∃ w' e', step board_page (Click 1000 "7" 0%nat) = Some w' ∧
    posts w' = posts board_page ++ [("7", 0%nat)] ∧
    lastUserAction w' = Some 1000 ∧
    heap (doc w') = <[0%nat := e']> (heap (doc board_page)) ∧
    currentStatus e' = Some "not_present" ∧
    innerHTML e' = status_html "not_present" ∧
    processing e' = Some "true" ∧ disabled e' = true ∧
    className e' = Js.classList_add "loading" "status-button btn btn-danger".
Proof.
  apply (accepted_click_effects 1000 "7" 0%nat board_page
           (mkElement "status-button btn btn-danger" (Some "not_present") None
              (status_html "not_present") false));
    vm_compute; reflexivity.
Defined.

Lemma settle_chain_button button o w e :
  heap (doc w) !! button = Some e →
  heap (doc (settle_chain button o w)) =
  <[button := settled_button o e]> (heap (doc w)).
Proof.
  intros He.
  assert (∀ f, alter f button (heap (doc w)) = <[button := f e]> (heap (doc w)))
    as Ha.
  { intros f. apply list_eq. intros i. destruct (decide (button = i)) as [<-|Hne].
    - rewrite list_lookup_alter_eq, He. simpl. symmetry.
      apply list_lookup_insert_eq. by eapply lookup_lt_Some.
    - by rewrite list_lookup_alter_ne, list_lookup_insert_ne. }
  assert (∀ f g, alter f button (alter g button (heap (doc w))) =
                 <[button := f (g e)]> (heap (doc w))) as Ha2.
  { intros f g. apply list_eq. intros i.
    destruct (decide (button = i)) as [<-|Hne].
    - rewrite !list_lookup_alter_eq, He. simpl. symmetry.
      apply list_lookup_insert_eq. by eapply lookup_lt_Some.
    - by rewrite !list_lookup_alter_ne, list_lookup_insert_ne. }
  unfold settle_chain, cycle_finally, cycle_catch, cycle_then, showNotification,
    update_element, setTimeout, log, settled_button.
  destruct o as [err|err|reply]; simpl.
  - destruct (showNotification_defined (globals w)); simpl; apply Ha.
  - destruct (showNotification_defined (globals w)); simpl; apply Ha.
  - destruct (r_success reply); simpl.
    + destruct (audioSystem_defined (globals w)); simpl;
        destruct (truthy_message (r_message reply)); simpl;
        destruct (showNotification_defined (globals w)); simpl; apply Ha2.
    + destruct (showNotification_defined (globals w)); simpl; apply Ha.
Qed.

Lemma settle_chain_notifications button o w :
  request_failed o = true →
  notifications (settle_chain button o w) =
  notifications w ++
  (if showNotification_defined (globals w) then [(failure_message o, "error")]
   else []) ∧
  audio_triggers (settle_chain button o w) = audio_triggers w.
Proof.
  unfold settle_chain, cycle_finally, cycle_catch, cycle_then, showNotification,
    update_element, setTimeout, log, request_failed, failure_message.
  destruct o as [err|err|reply]; simpl.
  - intros _. destruct (showNotification_defined (globals w)); simpl;
      by rewrite ?app_nil_r.
  - intros _. destruct (showNotification_defined (globals w)); simpl;
      by rewrite ?app_nil_r.
  - destruct (r_success reply); [done|]. intros _. simpl.
    destruct (showNotification_defined (globals w)); simpl;
      by rewrite ?app_nil_r.
Qed.

(** A request that fails (the fetch rejects, the body is no JSON, or
    the reply says [success: false]) leaves the button showing what it
    showed: status and text are untouched, the class only loses
    "loading", the button is enabled again while its processing flag
    stays as it was until the re-enable fires; no chime is triggered,
    and when the page defines [showNotification] one error notification
    is shown: the server's message if it sent one, a fixed text
    otherwise. *)
Theorem failed_request_keeps_status (i : nat) (o : PostOutcome) (w : World)
    (routeId : string) (button : nat) (e : Element) :
  posts w !! i = Some (routeId, button) →
  heap (doc w) !! button = Some e →
  request_failed o = true →
  ∃ w' e', step w (PostSettles i o) = Some w' ∧
    heap (doc w') = <[button := e']> (heap (doc w)) ∧
    currentStatus e' = currentStatus e ∧ innerHTML e' = innerHTML e ∧
    className e' = Js.classList_remove "loading" (className e) ∧
    disabled e' = false ∧ processing e' = processing e ∧
    audio_triggers w' = audio_triggers w ∧
    notifications w' =
      notifications w ++
      (if showNotification_defined (globals w)
       then [(failure_message o, "error")] else []).
Proof.
  intros Hi He Hf.
  exists (settle_chain button o (set_posts (delete i (posts w)) w)),
         (hideLoadingState e).
  split; [simpl; by rewrite cycle_settle_chain, Hi|].
  rewrite (settle_chain_button button o _ e) by done.
  destruct (settle_chain_notifications button o
              (set_posts (delete i (posts w)) w) Hf) as [Hn Ha].
  assert (settled_button o e = hideLoadingState e) as ->.
  { destruct o as [| |reply]; try done. simpl in *. by destruct (r_success reply). }
  by split_and!.
Qed.

Lemma failed_request_keeps_status_witness :
  ∃ w' e', step board_clicked (PostSettles 0 (PostRejected "Failed to fetch"))
           = Some w' ∧
    heap (doc w') = <[0%nat := e']> (heap (doc board_clicked)) ∧
    currentStatus e' = Some "not_present" ∧
    innerHTML e' = status_html "not_present" ∧
    className e' =
      Js.classList_remove "loading" "status-button btn btn-danger loading" ∧
    disabled e' = false ∧ processing e' = Some "true" ∧
    audio_triggers w' = audio_triggers board_clicked ∧
    notifications w' = notifications board_clicked ++ [].
Proof.
  apply (failed_request_keeps_status 0 (PostRejected "Failed to fetch")
           board_clicked "7" 0%nat
           (mkElement "status-button btn btn-danger loading" (Some "not_present")
              (Some "true") (status_html "not_present") true));
    vm_compute; reflexivity.
Defined.




(** ** What a patch touches *)







(** ** Content-only refresh *)

Lemma read_cell_seq (c : list Element) : ∀ h tail,
  read_cell (h ++ c ++ tail) (seq (length h) (length c)) = Some c.
Proof.
  induction c as [|x c IH]; intros h tail; simpl; [done|].
  rewrite lookup_app_r by lia. rewrite Nat.sub_diag. simpl.
  specialize (IH (h ++ [x]) tail). rewrite length_app in IH. simpl in IH.
  rewrite Nat.add_1_r in IH. rewrite <- app_assoc in IH. simpl in IH.
  by rewrite IH.
Qed.

Lemma clone_cells_read (cs : list (list Element)) : ∀ h tail,
  read_cells (h ++ snd (clone_cells (length h) cs) ++ tail)
    (fst (clone_cells (length h) cs)) = Some cs.
Proof.
  induction cs as [|c cs IH]; intros h tail; simpl; [done|].
  specialize (IH (h ++ c) tail). rewrite length_app in IH.
  destruct (clone_cells (length h + length c) cs) as [ids es]. simpl in *.
  rewrite <- !app_assoc in *. rewrite read_cell_seq. simpl. by rewrite IH.
Qed.

Lemma clone_rows_read (trs : list TRow) : ∀ h tail,
  read_rows (h ++ snd (clone_rows (length h) trs) ++ tail)
    (fst (clone_rows (length h) trs)) = Some trs.
Proof.
  induction trs as [|[inp cs] trs IH]; intros h tail; simpl; [done|].
  pose proof (clone_cells_read cs h) as Hc.
  destruct (clone_cells (length h) cs) as [ids es] eqn:E. simpl in Hc.
  specialize (IH (h ++ es) tail). rewrite length_app in IH.
  destruct (clone_rows (length h + length es) trs) as [rs es']. simpl in *.
  rewrite <- !app_assoc in *. rewrite Hc. simpl. by rewrite IH.
Qed.

Lemma clone_cells_from cs : ∀ base,
  Forall (Forall (λ id, (base <= id)%nat)) (fst (clone_cells base cs)).
Proof.
  induction cs as [|c cs IH]; intros base; simpl; [done|].
  specialize (IH (base + length c)%nat).
  destruct (clone_cells (base + length c) cs) as [ids es]. simpl in *.
  constructor.
  - apply Forall_forall. intros id Hin. apply elem_of_seq in Hin. lia.
  - eapply Forall_impl; [exact IH|]. intros l Hl.
    eapply Forall_impl; [exact Hl|]. simpl. lia.
Qed.

Lemma clone_rows_from trs : ∀ base, rows_from base (fst (clone_rows base trs)).
Proof.
  unfold rows_from.
  induction trs as [|[inp cs] trs IH]; intros base; simpl; [done|].
  pose proof (clone_cells_from cs base) as Hc.
  destruct (clone_cells base cs) as [ids es]. simpl in Hc.
  specialize (IH (base + length es)%nat).
  destruct (clone_rows (base + length es) trs) as [rs es']. simpl in *.
  constructor; [done|].
  eapply Forall_impl; [exact IH|]. intros r Hr.
  eapply Forall_impl; [exact Hr|]. intros l Hl.
  eapply Forall_impl; [exact Hl|]. simpl. lia.
Qed.

Lemma target_rows_from d base routeId b :
  rows_from base (doc_rows d) → target d routeId = Some b → (base <= b)%nat.
Proof.
  unfold target, find_row, status_button, rows_from. intros Hf Ht.
  destruct (mem routeId (other_inputs d)); [done|].
  destruct (find _ (doc_rows d)) as [row|] eqn:Hr; [|done].
  apply find_some_elem in Hr.
  destruct (cells row !! 2%nat) as [cell|] eqn:Hc; [|done].
  apply find_some_elem in Ht.
  rewrite Forall_forall in Hf. specialize (Hf row Hr).
  rewrite Forall_forall in Hf. apply list_elem_of_lookup_2 in Hc.
  specialize (Hf cell Hc). rewrite Forall_forall in Hf. by apply Hf.
Qed.

Lemma swap_rows_view trs w t :
  tbody (doc w) = Some t →
  tbody (doc (swap_rows trs w)) =
    Some (mkTBody (Some "1") (fst (clone_rows (length (heap (doc w))) trs))) ∧
  heap (doc (swap_rows trs w)) =
    heap (doc w) ++ snd (clone_rows (length (heap (doc w))) trs) ∧
  other_inputs (doc (swap_rows trs w)) = other_inputs (doc w).
Proof.
  intros Ht. unfold swap_rows. rewrite Ht.
  by destruct (clone_rows (length (heap (doc w))) trs).
Qed.

(** The swap of a content-only refresh makes the table show exactly the
    fetched rows, at full opacity, as clones: the new rows refer to
    elements created by the swap, so every status button a later patch
    can resolve is a new one, while the elements of the old rows stay
    what they were.  A reply that is still on its way will update a
    button that is no longer part of the table. *)
Theorem swap_shows_fetched_rows (trs : list TRow) (w : World) (t : TBody) :
  tbody (doc w) = Some t →
  let w' := swap_rows trs w in
  ∃ rs, tbody (doc w') = Some (mkTBody (Some "1") rs) ∧
    read_rows (heap (doc w')) rs = Some trs ∧
    (∀ id e, heap (doc w) !! id = Some e → heap (doc w') !! id = Some e) ∧
    (∀ routeId b, target (doc w') routeId = Some b →
       (length (heap (doc w)) <= b)%nat).
Proof.
  intros Ht w'. subst w'.
  destruct (swap_rows_view trs w t Ht) as (Hb & Hh & Ho).
  eexists. split; [exact Hb|]. split_and!.
  - rewrite Hh. pose proof (clone_rows_read trs (heap (doc w)) []) as Hr.
    by rewrite app_nil_r in Hr.
  - intros id e He. rewrite Hh. by apply lookup_app_l_Some.
  - intros routeId b Hb'. eapply target_rows_from; [|exact Hb'].
    unfold doc_rows. rewrite Hb. simpl. apply clone_rows_from.
Qed.

Lemma swap_shows_fetched_rows_witness :
  ∃ rs, tbody (doc (swap_rows fetched_rows board_clicked))
        = Some (mkTBody (Some "1") rs) ∧
    read_rows (heap (doc (swap_rows fetched_rows board_clicked))) rs
      = Some fetched_rows ∧
    (∀ id e, heap (doc board_clicked) !! id = Some e →
       heap (doc (swap_rows fetched_rows board_clicked)) !! id = Some e) ∧
    (∀ routeId b, target (doc (swap_rows fetched_rows board_clicked)) routeId
                  = Some b →
       (length (heap (doc board_clicked)) <= b)%nat).
Proof.
  apply (swap_shows_fetched_rows fetched_rows board_clicked
           (mkTBody None [mkRow ["7"] [[]; []; [0%nat]]])).
  vm_compute; reflexivity.
Defined.

(** * [debounce] *)

Section DebounceProps.
Context {A : Type}.
Implicit Types (s : Debounce.State A) (es : list (Debounce.Ev A)).

Lemma debounce_call_inv a args s :
  Debounce.inv a s → Debounce.inv (Some args) (Debounce.call args s).
Proof.
  intros [Hp Hn]. unfold Debounce.inv, Debounce.call. simpl. split.
  - right. exists (Debounce.next_id s), args. split; [|done].
    destruct Hp as [->|(id & x & -> & -> & _)]; simpl.
    + by destruct (Debounce.timeout s).
    + by rewrite Nat.eqb_refl.
  - intros id [= <-]. lia.
Qed.

Lemma debounce_fire_inv a id s s' :
  Debounce.inv a s → Debounce.fire id s = Some s' →
  Debounce.inv a s' ∧ Debounce.pending s' = [] ∧
  ∃ x, a = Some x ∧ Debounce.invoked s' = Debounce.invoked s ++ [x].
Proof.
  intros [Hp Hn] H. unfold Debounce.fire in H.
  destruct Hp as [Hp|(id0 & x & Hp & Ht & Ha)]; rewrite Hp in H; simpl in H;
    [done|].
  destruct (Nat.eqb id0 id) eqn:E; simpl in H; [|done]. simplify_eq.
  rewrite Ht. simpl. split_and!; [|done|by exists x].
  split; [by left|]. simpl. intros id1 [= <-]. by apply Hn.
Qed.

Lemma debounce_run_inv es : ∀ a s s',
  Debounce.inv a s → Debounce.run s es = Some s' →
  Debounce.inv (Debounce.last_call es a) s'.
Proof.
  induction es as [|[args|id] es IH]; intros a s s' Hi H; simpl in *.
  - by simplify_eq.
  - eapply IH; [|exact H]. by eapply debounce_call_inv.
  - destruct (Debounce.fire id s) as [s1|] eqn:Hf; [simpl in H|done].
    eapply IH; [|exact H]. by destruct (debounce_fire_inv _ _ _ _ Hi Hf).
Qed.

Lemma debounce_init_inv ms : Debounce.inv (A:=A) None (Debounce.debounce ms).
Proof. split; [by left|done]. Qed.

(** However the debounced function is called and whichever timers
    fire, at most one timer is pending, it is the one the closure's
    [timeout] names, and it holds the arguments of the most recent call:
    every call cancels the timer of the call before it. *)
Theorem debounce_keeps_latest_call (ms : Z) (es : list (Debounce.Ev A))
    (s : Debounce.State A) :
  Debounce.run (Debounce.debounce ms) es = Some s →
  (length (Debounce.pending s) <= 1)%nat ∧
  ∀ id x, (id, x) ∈ Debounce.pending s →
    Debounce.timeout s = Some id ∧ Debounce.last_call es None = Some x.
Proof.
  intros H.
  destruct (debounce_run_inv es None _ _ (debounce_init_inv ms) H) as [Hp _].
  destruct Hp as [->|(id0 & x0 & -> & Ht & Ha)]; simpl.
  - split; [lia|]. intros id x Hin. by apply elem_of_nil in Hin.
  - split; [lia|]. intros id x Hin. apply list_elem_of_singleton in Hin.
    by simplify_eq.
Qed.

(** When the timer fires, [func] is called once, with the arguments of
    the most recent call, and nothing is left pending: of a burst of
    calls only the last one gets through. *)
Theorem debounce_fires_latest_call (ms : Z) (es : list (Debounce.Ev A))
    (s s' : Debounce.State A) (id : nat) :
  Debounce.run (Debounce.debounce ms) es = Some s →
  Debounce.step s (Debounce.Fire id) = Some s' →
  Debounce.pending s' = [] ∧
  ∃ x, Debounce.last_call es None = Some x ∧
       Debounce.invoked s' = Debounce.invoked s ++ [x].
Proof.
  intros H Hf. simpl in Hf.
  pose proof (debounce_run_inv es None _ _ (debounce_init_inv ms) H) as Hi.
  destruct (debounce_fire_inv _ _ _ _ Hi Hf) as (_ & Hp & x & Hx & Hv).
  split; [done|]. by exists x.
Qed.

End DebounceProps.

Lemma debounce_keeps_latest_call_witness :
  (length (Debounce.pending
             (Debounce.call "c" (Debounce.call "b" (Debounce.call "a"
                (Debounce.debounce 300))))) <= 1)%nat.
Proof.
  apply (debounce_keeps_latest_call 300
           [Debounce.Call "a"; Debounce.Call "b"; Debounce.Call "c"]).
  reflexivity.
Defined.

Lemma debounce_fires_latest_call_witness :
  ∃ x, Debounce.last_call
         [Debounce.Call "a"; Debounce.Call "b"; Debounce.Call "c"] None = Some x ∧
       Debounce.invoked
         (default (Debounce.debounce 300)
            (Debounce.run (Debounce.debounce 300)
               [Debounce.Call "a"; Debounce.Call "b"; Debounce.Call "c";
                Debounce.Fire 3])) =
       Debounce.invoked
         (Debounce.call "c" (Debounce.call "b" (Debounce.call "a"
            (Debounce.debounce 300)))) ++ [x].
Proof.
  apply (debounce_fires_latest_call 300
           [Debounce.Call "a"; Debounce.Call "b"; Debounce.Call "c"]
           (Debounce.call "c" (Debounce.call "b" (Debounce.call "a"
              (Debounce.debounce 300)))) _ 3%nat); reflexivity.
Defined.

(** * [throttle] *)

Section ThrottleProps.
Context {A : Type}.
Implicit Types (s : Throttle.State A) (es : list (Throttle.Ev A)).

Lemma throttle_run_inv es : ∀ s s',
  (Throttle.resets s = if Throttle.inThrottle s then 1 else 0)%nat →
  Throttle.run s es = Some s' →
  (Throttle.resets s' = if Throttle.inThrottle s' then 1 else 0)%nat ∧
  Throttle.invoked s' =
    Throttle.invoked s ++ Throttle.admitted (negb (Throttle.inThrottle s)) es.
Proof.
  induction es as [|[args|] es IH]; intros s s' Hi H; simpl in *.
  - simplify_eq. by rewrite app_nil_r.
  - unfold Throttle.call in H. pose proof (IH s s' Hi) as IH1.
    destruct (Throttle.inThrottle s) eqn:Ht; simpl in *.
    + by apply IH1.
    + apply IH in H; [|simpl; lia]. destruct H as [Hr Hv]. simpl in *.
      split; [done|]. by rewrite Hv, <- app_assoc.
  - unfold Throttle.fire in H. destruct (Throttle.resets s) as [|n] eqn:Hr;
      [done|]. simpl in H.
    destruct (Throttle.inThrottle s) eqn:Ht; [|done]. simplify_eq. simpl.
    apply IH in H; [|simpl; lia]. destruct H as [Hr' Hv]. simpl in *.
    by split.
Qed.

Lemma admitted_length (es : list (Throttle.Ev A)) : ∀ b,
  (length (Throttle.admitted b es) <=
   (if b then 1 else 0) + Throttle.fires es)%nat.
Proof.
  unfold Throttle.fires.
  induction es as [|[args|] es IH]; intros b; simpl; [lia| |].
  - specialize (IH false). destruct b; simpl in *; lia.
  - specialize (IH true). simpl in *. lia.
Qed.

(** The throttled function lets through the first call of each window
    and drops every other call: a dropped call is not queued, it is
    never made later.  A window opens with a call that gets through and
    closes when its timer fires; at most one such timer is pending, and
    the number of calls of [func] never exceeds the number of fired
    timers by more than one. *)
Theorem throttle_admits_first_of_window (ms : Z) (es : list (Throttle.Ev A))
    (s : Throttle.State A) :
  Throttle.run (Throttle.throttle ms) es = Some s →
  Throttle.invoked s = Throttle.admitted true es ∧
  (Throttle.resets s <= 1)%nat ∧
  (length (Throttle.invoked s) <= 1 + Throttle.fires es)%nat.
Proof.
  intros H.
  destruct (throttle_run_inv es (Throttle.throttle ms) s eq_refl H) as [Hr Hv].
  simpl in Hv. split; [done|]. split.
  - rewrite Hr. destruct (Throttle.inThrottle s); lia.
  - rewrite Hv. apply (admitted_length es true).
Qed.

End ThrottleProps.

Lemma throttle_admits_first_of_window_witness :
  Throttle.invoked
    (default (Throttle.throttle 100)
       (Throttle.run (Throttle.throttle 100)
          [Throttle.Call "a"; Throttle.Call "b"; Throttle.Fire;
           Throttle.Call "c"])) = ["a"; "c"].
Proof.
  apply (throttle_admits_first_of_window 100
           [Throttle.Call "a"; Throttle.Call "b"; Throttle.Fire;
            Throttle.Call "c"]); reflexivity.
Defined.

(** * The chime *)

Section AudioProps.
Import Audio.





Lemma constructor_fresh page :
  isInitialized (constructor page) = false ∧ resuming (constructor page) = O ∧
  tones (constructor page) = [] ∧
  chordNotes (constructor page) = [26163; 32963; 39200] ∧
  (detectClassAccount page && has_AudioContext page && negb (ctor_throws page)
     = false → audioContext (constructor page) = None).
Proof.
  unfold constructor.
  destruct (detectClassAccount page && has_AudioContext page); simpl;
    split_and!; try done.
  by destruct (ctor_throws page).
Qed.


Lemma playChord_tones a :
  canPlayAudio a = true → chordNotes a = [26163; 32963; 39200] →
  tones (playChord a) = tones a ++ chord ∧
  chordNotes (playChord a) = chordNotes a.
Proof.
  intros Hc Hn. unfold playChord. rewrite Hc. simpl. rewrite Hn. simpl.
  unfold createTone. unfold canPlayAudio in Hc.
  destruct (audioContext a) as [[]|]; try by rewrite ?andb_false_r in Hc.
  apply andb_true_iff in Hc as [Hc _]. apply andb_true_iff in Hc as [_ ->].
  done.
Qed.

Lemma chime_is_playChord a :
  onRouteStatusChange a = playChord a ∧ onBulkOperation a = playChord a ∧
  snd (testAudio a) = playChord a.
Proof.
  unfold onRouteStatusChange, onBulkOperation, testAudio.
  destruct (canPlayAudio a) eqn:Hc; [done|].
  unfold playChord. by rewrite Hc.
Qed.

Lemma playChord_chords a n :
  chordNotes a = [26163; 32963; 39200] →
  tones a = mjoin (replicate n chord) →
  chordNotes (playChord a) = [26163; 32963; 39200] ∧
  ∃ k, (k <= 1)%nat ∧ tones (playChord a) = mjoin (replicate (n + k) chord).
Proof.
  intros Hn Ht. destruct (canPlayAudio a) eqn:Hc.
  - destruct (playChord_tones a Hc Hn) as [-> ->]. split; [done|].
    exists 1%nat. split; [lia|]. rewrite Ht.
    rewrite replicate_add. simpl. rewrite join_app. by simpl.
  - unfold playChord. rewrite Hc. split; [done|]. exists O. split; [lia|].
    by rewrite Nat.add_0_r.
Qed.

Lemma audio_step_chords a e a' n :
  chordNotes a = [26163; 32963; 39200] →
  tones a = mjoin (replicate n chord) → step a e = Some a' →
  chordNotes a' = [26163; 32963; 39200] ∧
  ∃ k, (k <= chime_requests [e])%nat ∧
       tones a' = mjoin (replicate (n + k) chord).
Proof.
  intros Hn Ht H.
  destruct (chime_is_playChord a) as (E1 & E2 & E3).
  pose proof (playChord_chords a n Hn Ht) as Hp.
  assert (chordNotes a' = chordNotes a ∧ tones a' = tones a →
            chordNotes a' = [26163; 32963; 39200] ∧
            ∃ k, (k <= chime_requests [e])%nat ∧
                 tones a' = mjoin (replicate (n + k) chord)) as Hsame.
  { intros [-> ->]. split; [done|]. exists O. split; [lia|].
    by rewrite Nat.add_0_r. }
  destruct e as [ev| | |st| | |]; simpl in H.
  - simplify_eq. apply Hsame. unfold interact.
    destruct (existsb _ _); [|done]. by destruct (audioContext a) as [[]|].
  - destruct (resuming a); simplify_eq. by apply Hsame.
  - destruct (resuming a); simplify_eq. by apply Hsame.
  - destruct (audioContext a); simplify_eq. by apply Hsame.
  - simplify_eq. rewrite E1. exact Hp.
  - simplify_eq. rewrite E2. exact Hp.
  - simplify_eq. rewrite E3. exact Hp.
Qed.

Lemma audio_run_chords es : ∀ a a' n,
  chordNotes a = [26163; 32963; 39200] →
  tones a = mjoin (replicate n chord) → run a es = Some a' →
  ∃ k, (k <= chime_requests es)%nat ∧
       tones a' = mjoin (replicate (n + k) chord).
Proof.
  induction es as [|e es IH]; intros a a' n Hn Ht H; simpl in *.
  - simplify_eq. exists O. split; [lia|]. by rewrite Nat.add_0_r.
  - destruct (step a e) as [a1|] eqn:Hs; [simpl in H|done].
    destruct (audio_step_chords _ _ _ _ Hn Ht Hs) as (Hn1 & k1 & Hk1 & Ht1).
    destruct (IH _ _ _ Hn1 Ht1 H) as (k & Hk & Hta).
    exists (k1 + k)%nat. split.
    + change (e :: es) with ([e] ++ es). unfold chime_requests in *.
      rewrite List.filter_app, length_app. lia.
    + by rewrite Nat.add_assoc.
Qed.

End AudioProps.



(** What has been played is always a number of whole chords, C4, E4 and
    G4 in this order and staggered by position: no request plays a
    partial chord, and there are never more chords than requests
    ([onRouteStatusChange], [onBulkOperation], [testAudio]). *)
Theorem chimes_are_whole_chords (page : Audio.Page) (es : list Audio.Ev)
    (a : Audio.System) :
  Audio.run (Audio.constructor page) es = Some a →
  ∃ k, (k <= Audio.chime_requests es)%nat ∧
       Audio.tones a = mjoin (replicate k Audio.chord).
Proof.
  intros H. destruct (constructor_fresh page) as (_ & _ & Hn & Hc & _).
  by apply (audio_run_chords es (Audio.constructor page) a 0%nat).
Qed.

Lemma chimes_are_whole_chords_witness :
  ∃ k, (k <= Audio.chime_requests
               [Audio.Interact Audio.Touchstart; Audio.ResumeResolves;
                Audio.RouteStatusChange; Audio.BulkOperation])%nat ∧
       Audio.tones
         (default (Audio.constructor Audio.class_page)
            (Audio.run (Audio.constructor Audio.class_page)
               [Audio.Interact Audio.Touchstart; Audio.ResumeResolves;
                Audio.RouteStatusChange; Audio.BulkOperation]))
       = mjoin (replicate k Audio.chord).
Proof.
  apply (chimes_are_whole_chords Audio.class_page
           [Audio.Interact Audio.Touchstart; Audio.ResumeResolves;
            Audio.RouteStatusChange; Audio.BulkOperation]).
  vm_compute; reflexivity.
Defined.

(** * [formatNumber] *)

Section FormatProps.
Import Format.

Lemma digit_not_comma c : is_digit c = true → Ascii.eqb c comma = false.
Proof.
  unfold is_digit. intros H. apply Ascii.eqb_neq. intros ->. by vm_compute in H.
Qed.

Lemma digit_is_word c : is_digit c = true → is_word c = true.
Proof. unfold is_word. by intros ->. Qed.

Lemma digit_run_all s : all_digits s = true → digit_run s = String.length s.
Proof.
  induction s as [|c s IH]; simpl; [done|].
  intros H. apply andb_true_iff in H as [-> H]. by rewrite IH.
Qed.

Lemma insert_commas_strip s : ∀ p,
  strip_commas (insert_commas p s) = strip_commas s.
Proof.
  induction s as [|c s IH]; intros p; [done|].
  cbn [insert_commas]. destruct (p && lookahead (String c s)).
  - cbn [strip_commas]. change (Ascii.eqb comma comma) with true. cbn iota.
    destruct (Ascii.eqb c comma); by rewrite IH.
  - cbn [strip_commas]. destruct (Ascii.eqb c comma); by rewrite IH.
Qed.

Lemma strip_digits s : all_digits s = true → strip_commas s = s.
Proof.
  induction s as [|c s IH]; simpl; [done|].
  intros H. apply andb_true_iff in H as [Hc H].
  by rewrite (digit_not_comma c Hc), IH.
Qed.

(** After a digit, in a string of digits. *)
Lemma insert_commas_digits s :
  all_digits s = true →
  insert_commas true s =
  if (0 <? String.length s)%nat && (String.length s mod 3 =? 0)%nat
  then String "," (grouped s) else grouped s.
Proof.
  induction s as [|c s IH]; [done|].
  intros H. pose proof (digit_run_all _ H) as Hr.
  cbn [all_digits] in H. apply andb_true_iff in H as [Hc H].
  cbn [insert_commas]. unfold lookahead. rewrite Hr.
  rewrite (digit_is_word c Hc), (IH H). cbn [andb grouped].
  by destruct ((0 <? String.length (String c s))%nat &&
               (String.length (String c s) mod 3 =? 0)%nat),
              ((0 <? String.length s)%nat && (String.length s mod 3 =? 0)%nat).
Qed.

Lemma formatNumber_digits s :
  all_digits s = true → formatNumber s = grouped s.
Proof.
  destruct s as [|c s]; [done|]. intros H.
  cbn [all_digits] in H. apply andb_true_iff in H as [Hc H].
  unfold formatNumber. cbn [insert_commas andb grouped].
  rewrite (digit_is_word c Hc), (insert_commas_digits s H).
  by destruct ((0 <? String.length s)%nat && (String.length s mod 3 =? 0)%nat).
Qed.

Lemma grouped_length s :
  String.length (grouped s) =
  (String.length s + (String.length s - 1) / 3)%nat.
Proof.
  induction s as [|c s IH]; [done|].
  cbn [grouped]. cbn [String.length]. rewrite Nat.sub_succ, Nat.sub_0_r.
  destruct (String.length s) as [|m] eqn:Hl.
  - simpl. simpl in IH. by rewrite IH.
  - rewrite Nat.sub_succ, Nat.sub_0_r in IH.
    pose proof (Nat.div_mod_eq (S m) 3) as D1.
    pose proof (Nat.div_mod_eq m 3) as D0.
    pose proof (Nat.mod_upper_bound (S m) 3 ltac:(lia)) as B1.
    pose proof (Nat.mod_upper_bound m 3 ltac:(lia)) as B0.
    destruct (Nat.eqb_spec (S m mod 3) 0) as [Hm|Hm]; cbn [Nat.ltb Nat.leb andb];
      cbn [String.length]; rewrite IH; lia.
Qed.

End FormatProps.

(** [formatNumber] only ever inserts commas: taking the commas out of
    its result gives what taking them out of its argument gives,
    whatever the argument is. *)
Theorem formatNumber_only_inserts_commas (str : string) :
  Format.strip_commas (Format.formatNumber str) = Format.strip_commas str.
Proof. apply insert_commas_strip. Qed.

(** On a string of digits [formatNumber] groups the digits in threes
    from the right: a comma stands exactly before each group of three,
    never first and never last; the result has one comma for every three
    digits after the first group, and reads as the argument once the
    commas are taken out. *)
Theorem formatNumber_groups_digits (str : string) :
  Format.all_digits str = true →
  Format.formatNumber str = Format.grouped str ∧
  String.length (Format.formatNumber str) =
    (String.length str + (String.length str - 1) / 3)%nat ∧
  Format.strip_commas (Format.formatNumber str) = str.
Proof.
  intros H. split_and!.
  - by apply formatNumber_digits.
  - rewrite formatNumber_digits by done. apply grouped_length.
  - unfold Format.formatNumber. rewrite insert_commas_strip.
    by apply strip_digits.
Qed.

Lemma formatNumber_groups_digits_witness :
  Format.formatNumber "1234567" = Format.grouped "1234567" ∧
  String.length (Format.formatNumber "1234567") = (7 + (7 - 1) / 3)%nat ∧
  Format.strip_commas (Format.formatNumber "1234567") = "1234567".
Proof.
  apply (formatNumber_groups_digits "1234567"). reflexivity.
Defined.

(** What the grouping looks like, and what the pattern does to a
    fraction. *)
Example formatNumber_examples :
  Format.formatNumber "1234567" = "1,234,567" ∧
  Format.formatNumber "999" = "999" ∧
  Format.formatNumber "1234.5678" = "1,234.5,678".
Proof. by vm_compute. Qed.

(** * Class lists *)

Section ClassList.

Lemma append_cons c s t : String c s +:+ t = String c (s +:+ t).
Proof. reflexivity. Qed.

Lemma append_nil_r s : s +:+ EmptyString = s.
Proof.
  induction s as [|c s IH]; [reflexivity|]. by rewrite append_cons, IH.
Qed.

Lemma append_snoc acc c t :
  (acc +:+ String c EmptyString) +:+ t = acc +:+ String c t.
Proof.
  induction acc as [|a acc IH]; [reflexivity|]. by rewrite !append_cons, IH.
Qed.

Lemma no_ws_append s t : no_ws (s +:+ t) = no_ws s && no_ws t.
Proof.
  induction s as [|c s IH]; [reflexivity|].
  rewrite append_cons. cbn [no_ws]. by rewrite IH, andb_assoc.
Qed.

(** A token is read in one go. *)
Lemma split_ws_token t : ∀ acc s,
  no_ws t = true → Js.split_ws acc (t +:+ s) = Js.split_ws (acc +:+ t) s.
Proof.
  induction t as [|c t IH]; intros acc s H.
  - by rewrite append_nil_r.
  - cbn [no_ws] in H. apply andb_true_iff in H as [Hc H].
    apply negb_true_iff in Hc.
    change (String c t +:+ s) with (String c (t +:+ s)).
    cbn [Js.split_ws]. rewrite Hc, IH by done. by rewrite append_snoc.
Qed.

Lemma all_tokens_of_split s : ∀ acc,
  no_ws acc = true → forallb is_token (Js.split_ws acc s) = true.
Proof.
  induction s as [|c s IH]; intros acc Ha; simpl.
  - destruct acc; simpl; [done|]. unfold is_token. simpl in *.
    by rewrite Ha.
  - destruct (Js.is_ws c) eqn:Hc.
    + destruct acc; simpl; [by apply IH|]. unfold is_token at 1. simpl in *.
      rewrite Ha. simpl. by apply IH.
    + apply IH. rewrite no_ws_append, Ha. simpl. by rewrite Hc.
Qed.

Lemma split_serialize ts :
  forallb is_token ts = true → Js.split_ws EmptyString (Js.serialize ts) = ts.
Proof.
  induction ts as [|t ts IH]; [done|].
  intros H. simpl in H. apply andb_true_iff in H as [Ht H].
  unfold is_token in Ht. apply andb_true_iff in Ht as [Hne Hws].
  apply negb_true_iff, String.eqb_neq in Hne.
  destruct ts as [|t' ts].
  - simpl. rewrite <- (append_nil_r t) at 1.
    rewrite split_ws_token by done. simpl. by destruct t.
  - change (Js.serialize (t :: t' :: ts))
      with (t +:+ String " " (Js.serialize (t' :: ts))).
    rewrite split_ws_token by done.
    change (Js.split_ws (EmptyString +:+ t) (String " " (Js.serialize (t' :: ts))))
      with (Js.flush t (Js.split_ws EmptyString (Js.serialize (t' :: ts)))).
    rewrite IH by done. by destruct t.
Qed.

Lemma mem_app t l1 l2 : mem t (l1 ++ l2) = mem t l1 || mem t l2.
Proof. unfold mem. apply existsb_app. Qed.

Lemma mem_oset_add t u ts :
  mem t (Js.oset_add u ts) = String.eqb t u || mem t ts.
Proof.
  unfold Js.oset_add. fold (mem u ts). destruct (mem u ts) eqn:Hu.
  - destruct (String.eqb_spec t u) as [->|]; [by rewrite Hu|done].
  - rewrite mem_app. simpl. rewrite orb_false_r. apply orb_comm.
Qed.

Lemma tokens_oset_add u ts :
  is_token u = true → forallb is_token ts = true →
  forallb is_token (Js.oset_add u ts) = true.
Proof.
  intros Hu Hts. unfold Js.oset_add. destruct (existsb _ ts); [done|].
  rewrite forallb_app, Hts. simpl. by rewrite Hu.
Qed.

Lemma fold_oset l : ∀ acc,
  forallb is_token acc = true → forallb is_token l = true →
  forallb is_token (fold_left (λ ts t, Js.oset_add t ts) l acc) = true ∧
  ∀ t, mem t (fold_left (λ ts t, Js.oset_add t ts) l acc) = mem t acc || mem t l.
Proof.
  induction l as [|u l IH]; intros acc Ha Hl; simpl in *.
  - split; [done|]. intros t. by rewrite orb_false_r.
  - apply andb_true_iff in Hl as [Hu Hl].
    destruct (IH (Js.oset_add u acc) (tokens_oset_add _ _ Hu Ha) Hl) as [F M].
    split; [done|]. intros t. rewrite M, mem_oset_add.
    destruct (String.eqb t u), (mem t acc), (mem t l); done.
Qed.

Lemma token_set_tokens cls :
  forallb is_token (Js.token_set cls) = true ∧
  ∀ t, mem t (Js.token_set cls) = Js.has_class t cls.
Proof.
  unfold Js.token_set, Js.has_class.
  destruct (fold_oset (Js.split_ws EmptyString cls) [] eq_refl
              (all_tokens_of_split cls EmptyString eq_refl)) as [F M].
  split; [done|]. intros t. by rewrite M.
Qed.

Lemma has_class_serialize t ts :
  forallb is_token ts = true → Js.has_class t (Js.serialize ts) = mem t ts.
Proof. intros H. unfold Js.has_class. by rewrite split_serialize. Qed.

Lemma has_class_add t u cls :
  is_token u = true →
  Js.has_class t (Js.classList_add u cls) = String.eqb t u || Js.has_class t cls.
Proof.
  intros Hu. destruct (token_set_tokens cls) as [F M]. unfold Js.classList_add.
  rewrite has_class_serialize by by apply tokens_oset_add.
  by rewrite mem_oset_add, M.
Qed.

Lemma forallb_filter_bool {X} (f g : X → bool) l :
  forallb f l = true → forallb f (List.filter g l) = true.
Proof.
  induction l as [|x l IH]; simpl; [done|].
  intros H. apply andb_true_iff in H as [Hx H]. destruct (g x); simpl;
    [rewrite Hx|]; by apply IH.
Qed.

Lemma mem_filter t (g : string → bool) l :
  mem t (List.filter g l) = g t && mem t l.
Proof.
  induction l as [|x l IH]; simpl; [by rewrite andb_false_r|].
  destruct (g x) eqn:Hg; simpl; rewrite IH.
  - destruct (String.eqb_spec t x) as [->|]; [by rewrite Hg|done].
  - destruct (String.eqb_spec t x) as [->|]; [by rewrite Hg|done].
Qed.

Lemma has_class_remove t u cls :
  Js.has_class t (Js.classList_remove u cls) =
  negb (String.eqb u t) && Js.has_class t cls.
Proof.
  destruct (token_set_tokens cls) as [F M]. unfold Js.classList_remove.
  rewrite has_class_serialize by by apply forallb_filter_bool.
  by rewrite mem_filter, M.
Qed.

Lemma validateField_classes valid cls :
  Js.has_class "is-valid" (validateField valid cls) = valid ∧
  Js.has_class "is-invalid" (validateField valid cls) = negb valid ∧
  ∀ t, t ≠ "is-valid" → t ≠ "is-invalid" →
       Js.has_class t (validateField valid cls) = Js.has_class t cls.
Proof.
  unfold validateField. destruct valid.
  - split_and!.
    + by rewrite has_class_add.
    + rewrite has_class_add, has_class_remove by done. done.
    + intros t H1 H2. rewrite has_class_add, has_class_remove by done.
      apply String.eqb_neq in H1, H2.
      by rewrite H1, (String.eqb_sym "is-invalid" t), H2.
  - split_and!.
    + rewrite has_class_add, has_class_remove by done. done.
    + by rewrite has_class_add.
    + intros t H1 H2. rewrite has_class_add, has_class_remove by done.
      apply String.eqb_neq in H1, H2.
      by rewrite H2, (String.eqb_sym "is-valid" t), H1.
Qed.

Lemma mem_false t l : mem t l = false ↔ t ∉ l.
Proof.
  unfold mem. induction l as [|x l IH]; simpl.
  - split; [intros _; apply not_elem_of_nil|done].
  - rewrite orb_false_iff, IH, not_elem_of_cons, String.eqb_neq. tauto.
Qed.

Lemma oset_add_absent u ts : u ∉ ts → Js.oset_add u ts = ts ++ [u].
Proof.
  intros H. apply mem_false in H. unfold Js.oset_add. fold (mem u ts).
  by rewrite H.
Qed.

Lemma oset_add_NoDup u ts : NoDup ts → NoDup (Js.oset_add u ts).
Proof.
  intros N. unfold Js.oset_add. fold (mem u ts).
  destruct (mem u ts) eqn:Hu; [done|]. apply mem_false in Hu.
  apply NoDup_app. split_and!; [done| |apply NoDup_singleton].
  intros x Hx. rewrite list_elem_of_singleton. by intros ->.
Qed.

Lemma fold_oset_NoDup l : ∀ acc,
  NoDup acc → NoDup (fold_left (λ ts t, Js.oset_add t ts) l acc).
Proof.
  induction l as [|u l IH]; intros acc N; simpl; [done|].
  by apply IH, oset_add_NoDup.
Qed.

Lemma token_set_NoDup cls : NoDup (Js.token_set cls).
Proof. apply fold_oset_NoDup. constructor. Qed.

Lemma fold_oset_id l : ∀ acc,
  NoDup (acc ++ l) → fold_left (λ ts t, Js.oset_add t ts) l acc = acc ++ l.
Proof.
  induction l as [|u l IH]; intros acc N; simpl; [by rewrite app_nil_r|].
  rewrite oset_add_absent.
  - rewrite IH; rewrite <- app_assoc; done.
  - apply NoDup_app in N as (_ & N & _). intros Hu. apply (N u Hu).
    apply elem_of_cons. by left.
Qed.

Lemma token_set_serialize ts :
  forallb is_token ts = true → NoDup ts → Js.token_set (Js.serialize ts) = ts.
Proof.
  intros F N. unfold Js.token_set. rewrite split_serialize by done.
  by apply (fold_oset_id ts []).
Qed.

Lemma filter_absent (u : string) ts :
  u ∉ ts → List.filter (λ t, negb (String.eqb u t)) ts = ts.
Proof.
  induction ts as [|t ts IH]; simpl; [done|].
  rewrite not_elem_of_cons. intros [Hne H].
  apply String.eqb_neq in Hne. rewrite Hne. simpl. by rewrite IH.
Qed.

(** Adding a class a normalised [className] lacks and removing it again
    gives the [className] back, character for character. *)
Lemma add_remove_class u cls :
  is_token u = true → serialized cls = true → Js.has_class u cls = false →
  Js.classList_remove u (Js.classList_add u cls) = cls.
Proof.
  intros Hu Hs Hc. unfold serialized in Hs. apply String.eqb_eq in Hs.
  destruct (token_set_tokens cls) as [F M].
  pose proof (token_set_NoDup cls) as N.
  assert (u ∉ Js.token_set cls) as Hn by by apply mem_false; rewrite M.
  unfold Js.classList_remove, Js.classList_add.
  rewrite oset_add_absent by done.
  rewrite token_set_serialize.
  - rewrite List.filter_app, filter_absent by done. simpl.
    rewrite String.eqb_refl. simpl. by rewrite app_nil_r.
  - rewrite forallb_app, F. simpl. by rewrite Hu.
  - apply NoDup_app. split_and!; [done| |apply NoDup_singleton].
    intros x Hx. rewrite list_elem_of_singleton. by intros ->.
Qed.

End ClassList.

(** After [validateField] a field carries exactly one of the classes
    "is-valid" and "is-invalid", the one [checkValidity()] calls for,
    whatever it carried before (both, neither, either); every other
    class of the field is kept. *)
Theorem validateField_marks_exclusively (valid : bool) (cls : string) :
  Js.has_class "is-valid" (validateField valid cls) = valid ∧
  Js.has_class "is-invalid" (validateField valid cls) = negb valid ∧
  ∀ t, t ≠ "is-valid" → t ≠ "is-invalid" →
       Js.has_class t (validateField valid cls) = Js.has_class t cls.
Proof. apply validateField_classes. Qed.

(** ** Numbers with a fraction *)

Section FormatFraction.
Import Format.

Lemma digit_run_prefix s rest :
  all_digits s = true → digit_run rest = O →
  digit_run (s +:+ rest) = String.length s.
Proof.
  intros H Hr. induction s as [|c s IH]; [done|].
  cbn [all_digits] in H. apply andb_true_iff in H as [Hc H].
  rewrite append_cons. cbn [digit_run String.length]. by rewrite Hc, IH.
Qed.

(** Digits in front of something that does not start with a digit are
    grouped as if they stood alone. *)
Lemma insert_commas_prefix s : ∀ p rest,
  all_digits s = true → digit_run rest = O →
  insert_commas p (s +:+ rest) =
  insert_commas p s +:+
  insert_commas (match s with EmptyString => p | _ => true end) rest.
Proof.
  induction s as [|c s IH]; intros p rest H Hr; [done|].
  pose proof (digit_run_prefix _ rest H Hr) as Hp.
  pose proof (digit_run_all _ H) as Ha.
  cbn [all_digits] in H. apply andb_true_iff in H as [Hc H].
  rewrite append_cons in *. cbn [insert_commas]. unfold lookahead.
  rewrite Hp, Ha, (digit_is_word c Hc), (IH true rest H Hr).
  assert (match s with EmptyString => true | _ => true end = true) as ->
    by by destruct s.
  by destruct (p && _).
Qed.

Lemma formatNumber_point a b :
  all_digits a = true → all_digits b = true →
  formatNumber (a +:+ String "." b) = grouped a +:+ String "." (grouped b).
Proof.
  intros Ha Hb. unfold formatNumber.
  rewrite insert_commas_prefix by done.
  change (insert_commas false a) with (formatNumber a).
  rewrite (formatNumber_digits a Ha). f_equal.
  cbn [insert_commas]. unfold lookahead at 1. cbn [digit_run].
  change (is_digit ".") with false. cbn iota. rewrite andb_false_r.
  change (is_word ".") with false.
  change (insert_commas false b) with (formatNumber b).
  by rewrite (formatNumber_digits b Hb).
Qed.

End FormatFraction.

(** The pattern does not know about the decimal point: in the string of
    a number with a fraction the digits after the point are grouped in
    threes from the right as well, each side on its own (1234.5678
    becomes 1,234.5,678). *)
Theorem formatNumber_groups_fraction_too (a b : string) :
  Format.all_digits a = true → Format.all_digits b = true →
  Format.formatNumber (a +:+ String "." b) =
  Format.grouped a +:+ String "." (Format.grouped b).
Proof. apply formatNumber_point. Qed.

Lemma formatNumber_groups_fraction_too_witness :
  Format.formatNumber ("1234" +:+ String "." "5678") =
  Format.grouped "1234" +:+ String "." (Format.grouped "5678").
Proof.
  apply (formatNumber_groups_fraction_too "1234" "5678"); reflexivity.
Defined.

(** ** Timers *)

Section Timers.

Lemma timer_ids_ok_snoc l n p d cb :
  timer_ids_ok l n p → timer_ids_ok (l ++ [mkTimer n d cb]) (S n) p.
Proof.
  intros (F & N & P). split_and!.
  - apply Forall_app. split.
    + eapply Forall_impl; [exact F|]. simpl. lia.
    + apply Forall_singleton. simpl. lia.
  - rewrite fmap_app. apply NoDup_app. split_and!; [done| |by apply NoDup_singleton].
    intros x Hx. simpl. rewrite list_elem_of_singleton. intros ->.
    apply list_elem_of_fmap in Hx as (t & E & Ht).
    rewrite Forall_forall in F. specialize (F t Ht). lia.
  - intros id E. destruct (P id E) as [Hlt Hcb]. split; [lia|].
    intros t Ht Hid. apply elem_of_app in Ht as [Ht|Ht]; [by apply Hcb|].
    apply list_elem_of_singleton in Ht. subst t. simpl in Hid. lia.
Qed.

Lemma timer_ids_ok_snoc_poll l n p d :
  timer_ids_ok l n p → timer_ids_ok (l ++ [mkTimer n d CbPoll]) (S n) (Some n).
Proof.
  intros H. destruct (timer_ids_ok_snoc l n p d CbPoll H) as (F & N & _).
  split_and!; [done..|]. intros id [= <-]. split; [lia|].
  intros t Ht Hid. apply elem_of_app in Ht as [Ht|Ht].
  - destruct H as (F' & _). rewrite Forall_forall in F'. specialize (F' t Ht). lia.
  - apply list_elem_of_singleton in Ht. by subst t.
Qed.

Lemma timer_ids_ok_filter f l n p :
  timer_ids_ok l n p → timer_ids_ok (List.filter f l) n p.
Proof.
  intros (F & N & P).
  assert (∀ t, t ∈ List.filter f l → t ∈ l) as Hin.
  { intros t. rewrite !list_elem_of_In, filter_In. tauto. }
  split_and!.
  - rewrite Forall_forall in *. auto.
  - clear -N. induction l as [|t l IH]; simpl; [constructor|].
    apply NoDup_cons in N as [Ht N]. destruct (f t); [|by apply IH].
    simpl. apply NoDup_cons. split; [|by apply IH].
    intros Hx. apply Ht. apply list_elem_of_fmap in Hx as (u & E & Hu).
    apply list_elem_of_fmap. exists u. split; [done|].
    revert Hu. rewrite !list_elem_of_In, filter_In. tauto.
  - intros id E. destruct (P id E) as [Hlt Hcb]. split; [done|]. auto.
Qed.

Lemma timer_ids_ok_forget l n p : timer_ids_ok l n p → timer_ids_ok l n None.
Proof. intros (F & N & _). by split_and!. Qed.

Lemma handleSyncData_timers now data w :
  let w' := RealTimeUpdater.handleSyncData now data w in
  timers w' = timers w ∧ nextTimerId w' = nextTimerId w ∧ upd w' = upd w.
Proof.
  unfold RealTimeUpdater.handleSyncData,
    RealTimeUpdater.refreshRoutesPage, RealTimeUpdater.refreshStudentsPage,
    RealTimeUpdater.isUserAction.
  destruct (updateRouteData_frame now (default [] (routes data)) w)
    as (?&?&?&_).
  unfold_step. crush. all: split_and!; congruence.
Qed.

Ltac tinv_core :=
  first [ eassumption
        | eapply timer_ids_ok_snoc_poll; tinv_core
        | apply timer_ids_ok_snoc; tinv_core
        | apply timer_ids_ok_filter; tinv_core ].

Ltac tinv_tac :=
  first [ tinv_core
        | eapply timer_ids_ok_snoc_poll; tinv_tac
        | apply timer_ids_ok_snoc; tinv_tac
        | apply timer_ids_ok_filter; tinv_tac
        | eapply timer_ids_ok_forget; tinv_core ].

Lemma step_timer_inv w e w' : timer_inv w → step w e = Some w' → timer_inv w'.
Proof.
  unfold timer_inv. intros K H.
  destruct e as [| |now o|k o|id|now routeId button|i o].
  - unfold_step. crush. all: tinv_tac.
  - unfold_step. crush. all: tinv_tac.
  - simpl in H. destruct (poll_inflight w) as [|n]; [done|]. simplify_eq.
    rewrite poll_resume_split.
    set (w1 := match snd _ with Some err => _ | None => _ end).
    assert (timer_ids_ok (timers w1) (nextTimerId w1) (pollTimer (upd w1))) as K1.
    { subst w1. unfold RealTimeUpdater.poll_try.
      destruct o as [err| |err|data]; simpl; try done.
      destruct (success data); simpl; [|done].
      destruct (handleSyncData_timers now data (set_poll_inflight n w))
        as (Ht & Hn & Hu).
      rewrite Ht, Hn, Hu. done. }
    clearbody w1. unfold_step. crush. all: tinv_tac.
  - simpl in H. destruct (remove_first k (page_inflight w)); [|done].
    simpl in H. simplify_eq. unfold_step. crush. all: tinv_tac.
  - simpl in H. unfold fire in H. destruct (find _ _) as [t|]; [|done].
    simpl in H. simplify_eq. unfold_step. crush. all: tinv_tac.
  - simpl in H. unfold cycleRouteStatus in H.
    destruct (heap (doc w) !! button); [|done]. simpl in H.
    unfold_step. crush. all: tinv_tac.
  - simpl in H. rewrite cycle_settle_chain in H.
    destruct (posts w !! i) as [[r b]|]; [|done]. simplify_eq.
    unfold settle_chain. unfold_step. crush. all: tinv_tac.
Qed.

Lemma constructor_timer_inv path d g la :
  timer_inv (RealTimeUpdater.constructor path d g la).
Proof.
  unfold RealTimeUpdater.constructor, RealTimeUpdater.init.
  set (w0 := mkWorld _ _ _ _ _ _ _ _ _ _ _ _ _ _ _).
  assert (timer_inv w0) as K0.
  { unfold timer_inv, timer_ids_ok. simpl. split_and!; [constructor|constructor|done]. }
  destruct (String.eqb _ _).
  - apply (step_timer_inv (log "Real-time sync enabled for Transport Check-in page" w0)
             CallStartPolling); [exact K0|done].
  - eapply (step_timer_inv _ CallStopPolling); [|done]. exact K0.
Qed.

Lemma run_timer_inv es : ∀ w w',
  timer_inv w → run w es = Some w' → timer_inv w'.
Proof.
  induction es as [|e es IH]; intros w w' K H; simpl in H; [by simplify_eq|].
  destruct (step w e) as [w1|] eqn:Hs; [|done]. simpl in H.
  eapply IH; [|exact H]. by eapply step_timer_inv.
Qed.

Lemma reachable_timer_inv w : reachable w → timer_inv w.
Proof.
  intros (path & d & g & la & es & H).
  eapply run_timer_inv; [apply constructor_timer_inv|exact H].
Qed.

Lemma elem_of_filter_keep {A} (f : A → bool) l x :
  x ∈ l → f x = true → x ∈ List.filter f l.
Proof. rewrite !list_elem_of_In, filter_In. tauto. Qed.

Lemma step_keeps_timer w e w' t :
  timer_inv w → step w e = Some w' → t ∈ timers w → callback t ≠ CbPoll →
  fires_timer (timer_id t) e = false → t ∈ timers w'.
Proof.
  intros K H Ht Hcb Hf.
  assert (∀ l : list Timer, t ∈ timers w ++ l) as Happ.
  { intros l. apply elem_of_app. by left. }
  destruct e as [| |now o|k o|id|now routeId button|i o].
  - unfold_step. crush.
  - simpl in H. simplify_eq. unfold RealTimeUpdater.stopPolling. simpl.
    destruct (pollTimer (upd w)) as [[|id]|] eqn:Hp; simpl; try done.
    apply elem_of_filter_keep; [done|].
    apply negb_true_iff, Nat.eqb_neq. intros E.
    destruct K as (_ & _ & P). destruct (P _ Hp) as [_ Q].
    by apply Hcb, Q.
  - simpl in H. destruct (poll_inflight w) as [|n]; [done|]. simplify_eq.
    rewrite poll_resume_split.
    set (w1 := match snd _ with Some err => _ | None => _ end).
    assert (timers w1 = timers w) as K1.
    { subst w1. unfold RealTimeUpdater.poll_try.
      destruct o as [err| |err|data]; simpl; try done.
      destruct (success data); simpl; [|done].
      by destruct (handleSyncData_timers now data (set_poll_inflight n w))
        as (-> & _). }
    clearbody w1. unfold_step. crush. all: by rewrite ?K1.
  - simpl in H. destruct (remove_first k (page_inflight w)); [|done].
    simpl in H. simplify_eq. unfold_step. crush.
  - simpl in H, Hf. unfold fire in H. destruct (find _ _) as [t'|]; [|done].
    simpl in H. simplify_eq.
    assert (t ∈ timers (clearTimeout id w)) as Hc.
    { unfold clearTimeout. simpl. apply elem_of_filter_keep; [done|].
      apply negb_true_iff, Nat.eqb_neq. apply Nat.eqb_neq in Hf. congruence. }
    unfold_step. crush.
  - simpl in H. unfold cycleRouteStatus in H.
    destruct (heap (doc w) !! button); [|done]. simpl in H.
    unfold_step. crush.
  - simpl in H. rewrite cycle_settle_chain in H.
    destruct (posts w !! i) as [[r b]|]; [|done]. simplify_eq.
    unfold settle_chain. unfold_step. crush.
Qed.

Lemma run_keeps_timer es : ∀ w w' t,
  timer_inv w → run w es = Some w' → t ∈ timers w → callback t ≠ CbPoll →
  never_fires (timer_id t) es = true → t ∈ timers w'.
Proof.
  induction es as [|e es IH]; intros w w' t K H Ht Hcb Hf; simpl in *;
    [by simplify_eq|].
  apply andb_true_iff in Hf as [Hf1 Hf]. apply negb_true_iff in Hf1.
  destruct (step w e) as [w1|] eqn:Hs; [|done]. simpl in H.
  apply (IH w1 w' t); try done.
  - by eapply step_timer_inv.
  - by eapply step_keeps_timer.
Qed.

Lemma find_timer l : ∀ t,
  NoDup (timer_id <$> l) → t ∈ l →
  find (λ t', Nat.eqb (timer_id t') (timer_id t)) l = Some t.
Proof.
  induction l as [|u l IH]; intros t N Ht; [by apply elem_of_nil in Ht|].
  simpl in *. apply NoDup_cons in N as [Hu N].
  apply elem_of_cons in Ht as [->|Ht]; [by rewrite Nat.eqb_refl|].
  destruct (Nat.eqb_spec (timer_id u) (timer_id t)) as [E|_]; [|by apply IH].
  destruct Hu. rewrite E. apply list_elem_of_fmap. by exists t.
Qed.

Lemma reenables_elem b t l :
  t ∈ l → callback t = CbReenable b → (1 <= length (reenables_of b l))%nat.
Proof.
  intros Ht Hc. assert (t ∈ reenables_of b l) as Hf.
  { apply elem_of_filter_keep; [done|]. unfold is_reenable. rewrite Hc.
    apply Nat.eqb_refl. }
  destruct (reenables_of b l); [by apply elem_of_nil in Hf|simpl; lia].
Qed.

Lemma reenable_fires w t b :
  timer_inv w → button_inv w → t ∈ timers w → callback t = CbReenable b →
  ∃ w' e, step w (TimerFires (timer_id t)) = Some w' ∧
    heap (doc w') !! b = Some e ∧ busy e = false ∧
    processing e = Some "false" ∧ disabled e = false ∧
    t ∉ timers w'.
Proof.
  intros (_ & N & _) K Ht Hc.
  destruct (K b) as [_ K2]. destruct K2 as (e & He & _).
  { pose proof (reenables_elem b t _ Ht Hc). lia. }
  exists (run_callback (callback t) (clearTimeout (timer_id t) w)), (reenable e).
  split_and!; try done.
  - simpl. unfold fire. by rewrite find_timer.
  - rewrite Hc. simpl. by rewrite list_lookup_alter_eq, He.
  - rewrite Hc. simpl. rewrite list_elem_of_In, filter_In.
    intros [_ E]. by rewrite Nat.eqb_refl in E.
Qed.

Lemma settled_reenabled w i o r b w1 es w2 :
  reachable w → posts w !! i = Some (r, b) →
  step w (PostSettles i o) = Some w1 → run w1 es = Some w2 →
  never_fires (nextTimerId w) es = true →
  ∃ w3 e, step w2 (TimerFires (nextTimerId w)) = Some w3 ∧
    heap (doc w3) !! b = Some e ∧ busy e = false ∧
    processing e = Some "false" ∧ disabled e = false.
Proof.
  intros R Hi Hs Hr Hn.
  pose proof (reachable_timer_inv w R) as T.
  assert (button_inv w) as B.
  { destruct R as (path & d & g & la & es0 & H).
    eapply button_inv_run; [apply constructor_button_inv|exact H]. }
  pose proof (step_timer_inv _ _ _ T Hs) as T1.
  pose proof (button_inv_step _ _ _ B Hs) as B1.
  pose proof (run_timer_inv _ _ _ T1 Hr) as T2.
  pose proof (button_inv_run _ _ _ B1 Hr) as B2.
  set (t := mkTimer (nextTimerId w) 300 (CbReenable b)).
  assert (t ∈ timers w1) as Ht1.
  { simpl in Hs. rewrite cycle_settle_chain, Hi in Hs. simplify_eq.
    destruct (settle_chain_view b o (set_posts (delete i (posts w)) w))
      as (_ & -> & _). apply elem_of_app. right. by apply list_elem_of_singleton. }
  assert (t ∈ timers w2) as Ht2.
  { by apply (run_keeps_timer es w1 w2 t). }
  destruct (reenable_fires w2 t b T2 B2 Ht2 eq_refl)
    as (w3 & e & H3 & He & Hb & Hp & Hd & _).
  by exists w3, e.
Qed.

Lemma click_next_timer now r b w w' :
  cycleRouteStatus now r b w = Some w' → nextTimerId w' = nextTimerId w.
Proof.
  unfold cycleRouteStatus. destruct (heap (doc w) !! b); [|done]. simpl.
  unfold_step. intros H. crush.
Qed.

Lemma filter_fresh_timer l n d cb :
  Forall (λ t, (timer_id t < n)%nat) l →
  List.filter (λ t, negb (Nat.eqb (timer_id t) n)) (l ++ [mkTimer n d cb]) = l.
Proof.
  intros F. rewrite List.filter_app. simpl. rewrite Nat.eqb_refl. simpl.
  rewrite app_nil_r. induction F as [|t l Ht F IH]; simpl; [done|].
  destruct (Nat.eqb_spec (timer_id t) n) as [E|_]; [lia|]. simpl. by rewrite IH.
Qed.

Lemma delete_last {A} (l : list A) x : delete (length l) (l ++ [x]) = l.
Proof. induction l as [|y l IH]; [done|]. simpl. f_equal. apply IH. Qed.

Lemma failed_round now r b o w e :
  timer_inv w → heap (doc w) !! b = Some e → busy e = false →
  serialized (className e) = true → Js.has_class "loading" (className e) = false →
  request_failed o = true →
  ∃ w', run w [Click now r b; PostSettles (length (posts w)) o;
                TimerFires (nextTimerId w)] = Some w' ∧
    heap (doc w') = <[b := after_failed_round e]> (heap (doc w)) ∧
    posts w' = posts w ∧ timers w' = timers w.
Proof.
  intros T He Hb Hs Hl Hf.
  destruct (accepted_click_world now r b w e He Hb)
    as (w1 & H1 & Hp1 & _ & Hh1 & Ht1 & _).
  pose proof (click_next_timer _ _ _ _ _ H1) as Hn1.
  set (e1 := showLoadingState (mark_processing e)) in *.
  assert (heap (doc w1) !! b = Some e1) as He1.
  { rewrite Hh1. apply list_lookup_insert_eq. by eapply lookup_lt_Some. }
  set (w1' := set_posts (delete (length (posts w)) (posts w1)) w1).
  set (w2 := settle_chain b o w1').
  assert (step w1 (PostSettles (length (posts w)) o) = Some w2) as H2.
  { assert (posts w1 !! length (posts w) = Some (r, b)) as Hi.
    { rewrite Hp1, lookup_app_r, Nat.sub_diag by lia. done. }
    simpl. by rewrite cycle_settle_chain, Hi. }
  destruct (settle_chain_view b o w1') as (Hp2 & Ht2 & _).
  fold w2 in Hp2, Ht2.
  change (timers w1') with (timers w1) in Ht2.
  change (nextTimerId w1') with (nextTimerId w1) in Ht2.
  rewrite Ht1, Hn1 in Ht2.
  pose proof (settle_chain_button b o w1' e1 He1) as Hh2. fold w2 in Hh2.
  change (heap (doc w1')) with (heap (doc w1)) in Hh2.
  assert (settled_button o e1 = hideLoadingState e1) as Hsb.
  { destruct o as [| |reply]; try done. simpl in *. by destruct (r_success reply). }
  rewrite Hsb in Hh2.
  set (t := mkTimer (nextTimerId w) 300 (CbReenable b)) in *.
  assert (timer_inv w2) as T2.
  { eapply step_timer_inv; [|exact H2].
    eapply (step_timer_inv w (Click now r b)); done. }
  clearbody w2.
  set (w3 := run_callback (callback t) (clearTimeout (timer_id t) w2)).
  assert (step w2 (TimerFires (nextTimerId w)) = Some w3) as H3.
  { change (step w2 (TimerFires (nextTimerId w))) with (fire (timer_id t) w2).
    unfold fire. destruct T2 as (_ & N & _).
    rewrite (find_timer (timers w2) t N); [done|].
    rewrite Ht2. apply elem_of_app. right. by apply list_elem_of_singleton. }
  exists w3. split_and!.
  - cbn [run]. change (step w (Click now r b)) with (cycleRouteStatus now r b w).
    rewrite H1. cbn [mbind option_bind]. rewrite H2. cbn [mbind option_bind].
    by rewrite H3.
  - subst w3. simpl. rewrite Hh2, Hh1.
    apply list_eq. intros j. destruct (decide (b = j)) as [<-|Hne].
    + assert (b < length (heap (doc w)))%nat as Hlt by by eapply lookup_lt_Some.
      rewrite list_lookup_alter_eq, !list_lookup_insert_eq
        by (rewrite ?length_insert; done).
      simpl. unfold after_failed_round, reenable. subst e1. simpl.
      by rewrite add_remove_class.
    + by rewrite list_lookup_alter_ne, !list_lookup_insert_ne.
  - subst w3. simpl. rewrite Hp2. subst w1'. simpl. rewrite Hp1.
    apply delete_last.
  - subst w3. simpl. rewrite Ht2. apply filter_fresh_timer. by destruct T.
Qed.

End Timers.

(** A pending timer that does not run [poll] (the re-enable of a
    button, the swap of a fetched table body, the hiding of the
    indicator) is cancelled by nothing: on a page that was loaded and
    saw any events, it stays pending through every further event,
    [stopPolling] and [startPolling] included, until it fires. *)
Theorem pending_timers_survive (w w' : World) (es : list Event) (n : nat)
    (t : Timer) :
  reachable w → timers w !! n = Some t → callback t ≠ CbPoll →
  run w es = Some w' → never_fires (timer_id t) es = true →
  t ∈ timers w'.
Proof.
  intros R Ht Hc Hr Hn.
  apply (run_keeps_timer es w w' t); try done.
  - by apply reachable_timer_inv.
  - by eapply list_elem_of_lookup_2.
Qed.

Lemma pending_timers_survive_witness :
  mkTimer 1 3000 CbHideIndicator ∈
    timers (default board_page
              (run board_page [CallStopPolling; CallStartPolling;
                               Click 1000 "7" 0%nat])).
Proof.
  apply (pending_timers_survive board_page _
           [CallStopPolling; CallStartPolling; Click 1000 "7" 0%nat] 0).
  - by exists "/routes", board, (mkGlobals true false false), None, [].
  - vm_compute; reflexivity.
  - simpl; congruence.
  - vm_compute; reflexivity.
  - vm_compute; reflexivity.
Defined.

(** No button stays stuck: once the request of a button settled,
    whatever its outcome, the timer set in [finally] (its id is the next
    id at that moment) survives every later event, and when it fires the
    button is enabled and its processing flag is 'false', so the next
    click is accepted. *)
Theorem settled_button_is_reenabled (w w1 w2 : World) (i : nat)
    (o : PostOutcome) (r : string) (b : nat) (es : list Event) :
  reachable w → posts w !! i = Some (r, b) →
  step w (PostSettles i o) = Some w1 → run w1 es = Some w2 →
  never_fires (nextTimerId w) es = true →
  ∃ w3 e, step w2 (TimerFires (nextTimerId w)) = Some w3 ∧
    heap (doc w3) !! b = Some e ∧ busy e = false ∧
    processing e = Some "false" ∧ disabled e = false.
Proof. apply settled_reenabled. Qed.

Lemma settled_button_is_reenabled_witness :
  ∃ w3 e,
    step (default board_clicked
            (run board_clicked
               [PostSettles 0 (PostRejected "offline"); CallStopPolling;
                Click 2000 "7" 0%nat]))
         (TimerFires (nextTimerId board_clicked)) = Some w3 ∧
    heap (doc w3) !! 0%nat = Some e ∧ busy e = false ∧
    processing e = Some "false" ∧ disabled e = false.
Proof.
  apply (settled_button_is_reenabled board_clicked
           (default board_clicked
              (run board_clicked [PostSettles 0 (PostRejected "offline")]))
           _ 0 (PostRejected "offline") "7" 0
           [CallStopPolling; Click 2000 "7" 0%nat]).
  - exists "/routes", board, (mkGlobals true false false), None,
      [Click 1000 "7" 0%nat]. vm_compute; reflexivity.
  - vm_compute; reflexivity.
  - vm_compute; reflexivity.
  - vm_compute; reflexivity.
  - vm_compute; reflexivity.
Defined.

(** A whole failed round is a no-op for the button, up to the
    processing flag: on a button that accepts the click and whose
    [className] is normalised and lacks "loading", the click, the failed
    request and the re-enable together leave class, status and text as
    they were, the button enabled and its flag 'false'; no request and
    no timer is left over. *)
Theorem failed_round_restores_button (now : Z) (r : string) (b : nat)
    (o : PostOutcome) (w : World) (e : Element) :
  reachable w → heap (doc w) !! b = Some e → busy e = false →
  serialized (className e) = true →
  Js.has_class "loading" (className e) = false →
  request_failed o = true →
  ∃ w', run w [Click now r b; PostSettles (length (posts w)) o;
                TimerFires (nextTimerId w)] = Some w' ∧
    heap (doc w') = <[b := after_failed_round e]> (heap (doc w)) ∧
    posts w' = posts w ∧ timers w' = timers w.
Proof. intros R. apply failed_round. by apply reachable_timer_inv. Qed.

Lemma failed_round_restores_button_witness :
  ∃ w', run board_page [Click 1000 "7" 0%nat;
                         PostSettles (length (posts board_page))
                           (PostRejected "offline");
                         TimerFires (nextTimerId board_page)] = Some w' ∧
    heap (doc w') =
      <[0%nat := after_failed_round
                   (mkElement "status-button btn btn-danger" (Some "not_present")
                      None (status_html "not_present") false)]>
        (heap (doc board_page)) ∧
    posts w' = posts board_page ∧ timers w' = timers board_page.
Proof.
  apply (failed_round_restores_button 1000 "7" 0 (PostRejected "offline")
           board_page).
  - by exists "/routes", board, (mkGlobals true false false), None, [].
  - vm_compute; reflexivity.
  - vm_compute; reflexivity.
  - vm_compute; reflexivity.
  - vm_compute; reflexivity.
  - vm_compute; reflexivity.
Defined.

(** ** Sortable tables *)

Section TableSortProofs.
Import TableSort.

Lemma mark_lookup i d hs j :
  mark i d hs !! j =
  (λ h, if Nat.eqb j i then mkHeader (sort h) (Some d) (icon_class d)
        else mkHeader (sort h) None sortIcon) <$> hs !! j.
Proof. unfold mark. by rewrite list_lookup_imap. Qed.

Lemma mark_mark i d j d' hs : mark i d (mark j d' hs) = mark i d hs.
Proof.
  apply list_eq. intros m. rewrite !mark_lookup.
  destruct (hs !! m) as [h|]; simpl; [|done].
  destruct (Nat.eqb m j), (Nat.eqb m i); done.
Qed.

Lemma click_some i t h :
  headers t !! i = Some h →
  click i t = Some (mkTable (mark i (newDirection (direction h)) (headers t))
                      (sorted t ++ [(sort h, newDirection (direction h))])).
Proof. intros H. unfold click. by rewrite H. Qed.

Lemma newDirection_nth n :
  newDirection (Some (nth_direction n)) = nth_direction (S n).
Proof.
  unfold nth_direction. rewrite Nat.even_succ, <- Nat.negb_even.
  by destruct (Nat.even n).
Qed.

Lemma clicks_app cs1 : ∀ cs2 t,
  clicks (cs1 ++ cs2) t = clicks cs1 t ≫= clicks cs2.
Proof.
  induction cs1 as [|c cs1 IH]; intros cs2 t; simpl; [done|].
  destruct (click c t) as [t1|]; simpl; [apply IH|done].
Qed.

Lemma repeat_snoc {A} (x : A) n : repeat x (S n) = repeat x n ++ [x].
Proof. induction n as [|n IH]; [done|]. simpl in *. by rewrite <- IH. Qed.

(** [k + 1] clicks in a row on header [i], the first of them on a
    header whose direction is not set, or is set to "asc". *)
Lemma clicks_row k : ∀ i t h,
  headers t !! i = Some h →
  newDirection (direction h) = "desc" →
  clicks (repeat i (S k)) t =
  Some (mkTable (mark i (nth_direction k) (headers t))
          (sorted t ++ ((λ n, (sort h, nth_direction n)) <$> seq 0 (S k)))).
Proof.
  induction k as [|k IH]; intros i t h Hi Hd.
  - simpl. rewrite (click_some i t h Hi). simpl. by rewrite Hd.
  - rewrite repeat_snoc, clicks_app, (IH i t h Hi Hd). cbn [mbind option_bind].
    set (t1 := mkTable _ _).
    assert (headers t1 !! i =
            Some (mkHeader (sort h) (Some (nth_direction k))
                    (icon_class (nth_direction k)))) as H1.
    { subst t1. cbn [headers]. by rewrite mark_lookup, Hi, Nat.eqb_refl. }
    cbn [clicks]. rewrite (click_some i t1 _ H1). cbn [mbind option_bind].
    subst t1. cbn [headers sorted sort direction].
    rewrite newDirection_nth, mark_mark. f_equal. f_equal.
    rewrite <- app_assoc. f_equal. by rewrite (seq_S (S k)), fmap_app.
Qed.

End TableSortProofs.

(** The sort direction of a column depends only on how often in a row
    its header was clicked.  On a header that carries no
    [data-direction] (as after a click on any other header) the first
    click sorts descending, the second ascending, and so on in turn;
    each click calls [sortTableGeneric] once with the column and that
    direction; afterwards the clicked header alone carries a direction,
    with the matching arrow, and every other header has none and shows
    the neutral icon. *)
Theorem sort_direction_by_parity (t : TableSort.Table) (i k : nat)
    (h : TableSort.Header) :
  TableSort.headers t !! i = Some h → TableSort.direction h = None →
  ∃ t', TableSort.clicks (repeat i (S k)) t = Some t' ∧
    TableSort.sorted t' =
      TableSort.sorted t ++
      ((λ n, (TableSort.sort h, TableSort.nth_direction n)) <$> seq 0 (S k)) ∧
    ∀ m hm, TableSort.headers t !! m = Some hm →
      ∃ hm', TableSort.headers t' !! m = Some hm' ∧
        TableSort.sort hm' = TableSort.sort hm ∧
        TableSort.direction hm' =
          (if Nat.eqb m i then Some (TableSort.nth_direction k) else None) ∧
        TableSort.icon hm' =
          (if Nat.eqb m i
           then TableSort.icon_class (TableSort.nth_direction k)
           else TableSort.sortIcon).
Proof.
  intros Hi Hd. eexists. split; [apply (clicks_row k i t h Hi)|].
  { by rewrite Hd. }
  split; [done|]. intros m hm Hm. cbn [TableSort.headers].
  rewrite mark_lookup, Hm. simpl. eexists. split; [done|].
  by destruct (Nat.eqb m i).
Qed.

Lemma sort_direction_by_parity_witness :
  ∃ t',
    TableSort.clicks [0%nat; 0%nat]
      (default (TableSort.mkTable [] [])
         (TableSort.initializeTableSorting "/staff"
            [TableSort.mkTh "name" None []; TableSort.mkTh "role" None []]))
      = Some t' ∧
    TableSort.sorted t' = [("name", "desc"); ("name", "asc")].
Proof.
  destruct (sort_direction_by_parity
              (default (TableSort.mkTable [] [])
                 (TableSort.initializeTableSorting "/staff"
                    [TableSort.mkTh "name" None []; TableSort.mkTh "role" None []]))
              0 1 (TableSort.mkHeader "name" None TableSort.sortIcon))
    as (t' & H1 & H2 & _).
  - vm_compute; reflexivity.
  - reflexivity.
  - exists t'. split; [exact H1|]. rewrite H2. vm_compute; reflexivity.
Defined.
